(** * flux: the orchestration service of fluxd (service.go)

    A shallow embedding of [service.go].  The four collaborators of the
    service (registry client, Kubernetes cluster, automator, history
    database) live in other packages; every method call on one of them
    is an event of the signature [leafE], and a method of the service is
    a finite program [prog] over that signature.  The behaviour of the
    collaborators is left open: an execution ([exec]) pairs every call
    with whatever the collaborator answered.  A call on a collaborator is
    taken to come back with an answer; the one panic in the methods of
    [service] is the method call through a nil platform reference.  What
    Release does around a rolling update that panics is stated on
    [Release_around]. *)

From Stdlib Require Import Strings.Ascii Strings.String Lists.List ZArith Strings.Byte.
From stdpp Require Import base option list gmap strings.

Local Open Scope string_scope.

(** ** Go values shared by the packages *)

(** Go's [error] values that the service meets.  The two package-level
    sentinels are compared by identity in Go ([err == history.ErrNoHistory]);
    every other error value is known by its text only. *)
Inductive error : Type :=
| ErrNoPlatformConfigured        (* flux: errors.New("no platform configured") *)
| ErrNoHistory                   (* history.ErrNoHistory *)
| errorString (s : string).      (* any other error value *)

#[export] Instance error_eq_dec : EqDecision error.
Proof. solve_decision. Defined.

(** ** package registry *)
Module registry.

(** Modelled from the spec: registry.Image is not under src/; the spec's
    RepositoryImage is a repository name, a tag and a creation timestamp. *)
Record Image : Type := mkImage {
  Name : string;
  Tag : string;
  CreatedAt : Z
}.

(** Of registry.Repository the service reads the field [Images] only:
    the images of the repository, in the order the registry gives them. *)
Record Repository : Type := mkRepository {
  Images : list Image
}.

(** [*registry.Client]: the reference the service holds. *)
Inductive Client : Type := ClientAt (addr : positive).

End registry.

(** ** package platform and platform/kubernetes *)
Module platform.

(** Modelled from the spec: platform.Container is not under src/; the
    spec's RunningContainer is a container name and the reference of the
    image it runs.  The service reads the field [Image]. *)
Record Container : Type := mkContainer {
  Name : string;
  Image : string
}.

(** Modelled from the spec: platform.Service is not under src/; a
    workload descriptor, which the service hands through unread. *)
Record Service : Type := mkService {
  ServiceName : string;
  ServiceImage : string
}.

End platform.

Module kubernetes.

(** What a non-nil [*kubernetes.Cluster] points to. *)
Inductive Cluster : Type := ClusterAt (addr : positive).

End kubernetes.

(** ** package automator *)
Module automator.

Inductive Automator : Type := AutomatorAt (addr : positive).

End automator.

(** ** package history *)
Module history.

Inductive ServiceState : Type :=
| StateUnknown
| StateRest
| StateInProgress.

(** An event of the log is known to the service by its text; the stamp
    the store puts on it is the store's own. *)
Definition Event : Type := string.

(** history.History, with the two fields service.go names ([Service],
    [State]) and the event list. *)
Record History : Type := mkHistory {
  Service : string;
  State : ServiceState;
  Events : list Event
}.

(** A value of the interface type history.DB. *)
Inductive DB : Type := DBAt (addr : positive).

End history.

#[export] Instance ServiceState_eq_dec : EqDecision history.ServiceState.
Proof. solve_decision. Defined.

#[export] Instance DB_eq_dec : EqDecision history.DB.
Proof. solve_decision. Defined.

#[export] Instance Cluster_eq_dec : EqDecision kubernetes.Cluster.
Proof. solve_decision. Defined.

(** The text of an error, Go's [err.Error()].  Modelled from the spec:
    the text of history.ErrNoHistory is not under src/; the spec calls the
    condition "no history". *)
Definition Error (e : error) : string :=
  match e with
  | ErrNoPlatformConfigured => "no platform configured"
  | ErrNoHistory => "no history"
  | errorString s => s
  end.

(** ** Calls on the collaborators *)

(** One constructor per collaborator method that service.go calls, with
    the receiver and the arguments; the index is the Go return type, a
    pair for [(T, error)], [option error] for [error], [unit] for none. *)
Inductive leafE : Type -> Type :=
| GetRepository (c : registry.Client) (repository : string)
    : leafE (registry.Repository * option error)
| ContainersFor (k : kubernetes.Cluster) (namespace service : string)
    : leafE (list platform.Container * option error)
| ClusterServices (k : kubernetes.Cluster) (namespace : string)
    : leafE (list platform.Service * option error)
| ClusterRelease (k : kubernetes.Cluster) (namespace service : string)
    (newDef : list byte) (updatePeriod : Z)
    : leafE (option error)
| AllEvents (db : history.DB) (namespace : string)
    : leafE (gmap string history.History * option error)
| EventsForService (db : history.DB) (namespace service : string)
    : leafE (history.History * option error)
| ChangeState (db : history.DB) (namespace service : string)
    (state : history.ServiceState)
    : leafE unit
| LogEvent (db : history.DB) (namespace service : string) (msg : string)
    : leafE unit
| Enable (a : automator.Automator) (namespace service : string)
    : leafE unit
| Disable (a : automator.Automator) (namespace service : string)
    : leafE unit.

(** ** Programs *)

(** A method body: it returns, it panics, or it calls a collaborator and
    goes on with the answer. *)
Inductive prog (A : Type) : Type :=
| Ret (a : A)
| Panic (v : string)
| Call {R : Type} (e : leafE R) (k : R -> prog A).

Arguments Ret {A} a.
Arguments Panic {A} v.
Arguments Call {A R} e k.

Fixpoint bind {A B : Type} (p : prog A) (f : A -> prog B) : prog B :=
  match p with
  | Ret a => f a
  | Panic v => Panic v
  | Call e k => Call e (fun r => bind (k r) f)
  end.

Definition call {R : Type} (e : leafE R) : prog R := Call e Ret.

Notation "'let*' x ':=' p 'in' q" := (bind p (fun x => q))
  (at level 10, x binder, p at level 100, q at level 200,
   format "'[v' 'let*'  x  ':='  p  'in' '/' q ']'").

(** The run-time panic of a nil pointer dereference. *)
Definition nil_dereference : string :=
  "runtime error: invalid memory address or nil pointer dereference".

(** A method call through [s.platform], a [*kubernetes.Cluster].  The
    methods of the cluster are not under src/, and service.go does not
    decide what one of them does when it is called through the nil
    pointer.  Here such a call is taken to end in the panic of the
    dereference, before anything is asked; [on_cluster_or] below leaves
    it open. *)
Definition on_cluster {R : Type} (p : option kubernetes.Cluster)
    (m : kubernetes.Cluster -> leafE R) : prog R :=
  match p with
  | Some k => call (m k)
  | None => Panic nil_dereference
  end.

(** Go's [defer] in a function with a named result: the body runs first;
    the deferred function then runs and reads the named result, which is
    the returned value after a [return] and still the zero value when the
    body panicked; a panic of the body goes on after it. *)
Fixpoint with_defer {A : Type} (zero : A) (deferred : A -> prog unit)
    (body : prog A) : prog A :=
  match body with
  | Ret a => let* _ := deferred a in Ret a
  | Panic v => let* _ := deferred zero in Panic v
  | Call e k => Call e (fun r => with_defer zero deferred (k r))
  end.

(** ** package flux: service.go *)

(** DefaultNamespace is used when no namespace is provided to service
    methods. *)
Definition DefaultNamespace : string := "default".

(** The struct behind flux.Service.  Of its four references the source
    tests [platform] against nil, and only that one is taken to be
    possibly nil here. *)
Record service : Type := mkservice {
  registry : registry.Client;
  platform : option kubernetes.Cluster;
  automator : automator.Automator;
  history : history.DB
}.

(** NewService returns a service connected to the provided Kubernetes
    platform. *)
Definition NewService (reg : registry.Client) (k8s : option kubernetes.Cluster)
    (auto : automator.Automator) (history : history.DB) : service :=
  {| registry := reg; platform := k8s; automator := auto; history := history |}.

(** ContainerImages describes a combination of a platform container spec,
    and the available images in the corresponding registry. *)
Record ContainerImages : Type := mkContainerImages {
  Container : platform.Container;
  Images : list registry.Image
}.

(** The methods of [*service]. *)
Module service.
Section methods.

(** registry.ParseImage and the method Repository of registry.Image are
    not under src/; the methods below are stated over any two such
    functions. *)
Variable ParseImage : string -> registry.Image.
Variable Image_Repository : registry.Image -> string.

Definition Images (s : service) (repository : string)
    : prog (list registry.Image * option error) :=
  let* '(repo, err) := call (GetRepository (registry s) repository) in
  match err with
  | Some e => Ret ([], Some e)
  | None => Ret (registry.Images repo, None)
  end.

(** The [for ... range containers] loop of ServiceImages, with the
    slice [result] built so far. *)
Fixpoint range_containers (s : service) (containers : list platform.Container)
    (result : list ContainerImages)
    : prog (list ContainerImages * option error) :=
  match containers with
  | [] => Ret (result, None)
  | container :: rest =>
      let* '(repository, err) :=
        call (GetRepository (registry s)
                (Image_Repository (ParseImage (platform.Image container)))) in
      match err with
      | Some e => Ret ([], Some e)
      | None =>
          range_containers s rest
            (result ++ [mkContainerImages container (registry.Images repository)])
      end
  end.

Definition ServiceImages (s : service) (namespace service : string)
    : prog (list ContainerImages * option error) :=
  let* '(containers, err) :=
    on_cluster (platform s) (fun k => ContainersFor k namespace service) in
  match err with
  | Some e => Ret ([], Some e)
  | None => range_containers s containers []
  end.

Definition Services (s : service) (namespace : string)
    : prog (list platform.Service * option error) :=
  match platform s with
  | None => Ret ([], Some ErrNoPlatformConfigured)
  | Some k => call (ClusterServices k namespace)
  end.

Definition History (s : service) (namespace service : string)
    : prog (gmap string history.History * option error) :=
  if decide (service = "") then
    call (AllEvents (history s) namespace)
  else
    let* '(h, err) := call (EventsForService (history s) namespace service) in
    if decide (err = Some ErrNoHistory) then
      let h := history.mkHistory service history.StateUnknown [] in
      Ret ({[ history.Service h := h ]}, None)
    else
      match err with
      | Some e => Ret (∅, Some e)
      | None => Ret ({[ history.Service h := h ]}, None)
      end.

Definition Release (s : service) (namespace service : string)
    (newDef : list byte) (updatePeriod : Z) : prog (option error) :=
  match platform s with
  | None => Ret (Some ErrNoPlatformConfigured)
  | Some k =>
      let* _ := call (ChangeState (history s) namespace service
                        history.StateInProgress) in
      with_defer None
        (fun err =>
           let* _ :=
             match err with
             | Some e =>
                 call (LogEvent (history s) namespace service
                         ("Release failed: " +:+ Error e))
             | None =>
                 call (LogEvent (history s) namespace service
                         "Release succeeded")
             end in
           call (ChangeState (history s) namespace service history.StateRest))
        (call (ClusterRelease k namespace service newDef updatePeriod))
  end.

Definition Automate (s : service) (namespace service : string)
    : prog (option error) :=
  let* _ := call (Enable (automator s) namespace service) in
  Ret None.

Definition Deautomate (s : service) (namespace service : string)
    : prog (option error) :=
  let* _ := call (Disable (automator s) namespace service) in
  Ret None.

End methods.
End service.

(** ** Executions *)

(** How a call of a method ends. *)
Inductive outcome (A : Type) : Type :=
| Returned (a : A)
| Panicked (v : string).

Arguments Returned {A} a.
Arguments Panicked {A} v.

(** One call on a collaborator with the answer it gave. *)
Inductive event : Type :=
| Ev {R : Type} (e : leafE R) (r : R).

Definition trace : Type := list event.

(** [exec p t o]: the program [p] can run making the calls of [t], in
    this order and with these answers, and then ends with [o].  Nothing
    is assumed of the answers. *)
Fixpoint exec {A : Type} (p : prog A) (t : trace) (o : outcome A) : Prop :=
  match p with
  | Ret a => t = [] /\ o = Returned a
  | Panic v => t = [] /\ o = Panicked v
  | Call e k => exists r t', t = Ev e r :: t' /\ exec (k r) t' o
  end.

(** Collaborators as state transformers on a world [W]. *)
Definition handler (W : Type) : Type := forall R : Type, leafE R -> W -> R * W.

(** Running a program against given collaborators: the outcome, the
    calls made, the world left behind. *)
Fixpoint run {W A : Type} (h : handler W) (p : prog A) (w : W)
    : outcome A * trace * W :=
  match p with
  | Ret a => (Returned a, [], w)
  | Panic v => (Panicked v, [], w)
  | Call e k =>
      let '(r, w1) := h _ e w in
      let '(o, t, w2) := run h (k r) w1 in
      (o, Ev e r :: t, w2)
  end.

(** ** Reading a trace *)

(** The namespace argument of a call, for the calls that have one. *)
Definition namespace_of (ev : event) : option string :=
  match ev with
  | Ev e _ =>
      match e with
      | GetRepository _ _ => None
      | ContainersFor _ ns _ => Some ns
      | ClusterServices _ ns => Some ns
      | ClusterRelease _ ns _ _ _ => Some ns
      | AllEvents _ ns => Some ns
      | EventsForService _ ns _ => Some ns
      | ChangeState _ ns _ _ => Some ns
      | LogEvent _ ns _ _ => Some ns
      | Enable _ ns _ => Some ns
      | Disable _ ns _ => Some ns
      end
  end.

(** The same call with another namespace argument. *)
Definition call_with_namespace (ns : string) {R : Type} (e : leafE R)
    : leafE R :=
  match e in leafE R return leafE R with
  | GetRepository c x => GetRepository c x
  | ContainersFor k _ svc => ContainersFor k ns svc
  | ClusterServices k _ => ClusterServices k ns
  | ClusterRelease k _ svc d u => ClusterRelease k ns svc d u
  | AllEvents db _ => AllEvents db ns
  | EventsForService db _ svc => EventsForService db ns svc
  | ChangeState db _ svc st => ChangeState db ns svc st
  | LogEvent db _ svc msg => LogEvent db ns svc msg
  | Enable a _ svc => Enable a ns svc
  | Disable a _ svc => Disable a ns svc
  end.

(** The same call with another namespace argument, same answer. *)
Definition with_namespace (ns : string) (ev : event) : event :=
  match ev with
  | Ev e r => Ev (call_with_namespace ns e) r
  end.

(** Every call of the trace that has a namespace argument has [ns]
    there. *)
Definition forwards (ns : string) (t : trace) : Prop :=
  Forall (fun ev => forall x, namespace_of ev = Some x -> x = ns) t.

(** No call of the trace has DefaultNamespace as its namespace. *)
Definition no_default (t : trace) : Prop :=
  Forall (fun ev => namespace_of ev <> Some DefaultNamespace) t.

(** The namespace [ns] is handed on as it is: the calls have [ns], and
    unless [ns] is DefaultNamespace itself none has DefaultNamespace. *)
Definition handed_on (ns : string) (t : trace) : Prop :=
  forwards ns t /\ (ns <> DefaultNamespace -> no_default t).

(** The calls that ask a collaborator to change something; the others
    ([GetRepository], [ContainersFor], [ClusterServices], [AllEvents],
    [EventsForService]) are look-ups. *)
Definition mutates (ev : event) : bool :=
  match ev with
  | Ev e _ =>
      match e with
      | ClusterRelease _ _ _ _ _ => true
      | ChangeState _ _ _ _ => true
      | LogEvent _ _ _ _ => true
      | Enable _ _ _ => true
      | Disable _ _ _ => true
      | _ => false
      end
  end.

(** The error of a failed repository look-up. *)
Definition lookup_error (ev : event) : option error :=
  match ev with
  | Ev e r =>
      match e in leafE R return R -> option error with
      | GetRepository _ _ => fun r => snd r
      | _ => fun _ => None
      end r
  end.

(** What the platform answered to a rolling update. *)
Definition release_answer (ev : event) : option (option error) :=
  match ev with
  | Ev e r =>
      match e in leafE R return R -> option (option error) with
      | ClusterRelease _ _ _ _ _ => fun r => Some r
      | _ => fun _ => None
      end r
  end.

Definition release_answers (t : trace) : list (option error) :=
  omap release_answer t.

(** ** The history store *)

(** Modelled from the spec: the implementations of history.DB are not
    under src/.  The spec's History Store is an append-only event log plus
    a current-state register per (namespace, workload); ChangeState writes
    the register, LogEvent appends one event to the log. *)
Record Store : Type := mkStore {
  register : gmap (string * string) history.ServiceState;
  log : gmap (string * string) (list history.Event)
}.

Definition events_of (st : Store) (namespace service : string)
    : list history.Event :=
  default [] (log st !! (namespace, service)).

Definition state_of (st : Store) (namespace service : string)
    : option history.ServiceState :=
  register st !! (namespace, service).

Definition store_ChangeState (namespace service : string)
    (state : history.ServiceState) (st : Store) : Store :=
  {| register := <[ (namespace, service) := state ]> (register st);
     log := log st |}.

Definition store_LogEvent (namespace service : string) (msg : string)
    (st : Store) : Store :=
  {| register := register st;
     log := <[ (namespace, service) := (events_of st namespace service ++ [msg])%list ]>
              (log st) |}.

(** The effect of one call on the store behind [db]. *)
Definition store_step (db : history.DB) (st : Store) (ev : event) : Store :=
  match ev with
  | Ev e _ =>
      match e with
      | ChangeState d ns svc state =>
          if decide (d = db) then store_ChangeState ns svc state st else st
      | LogEvent d ns svc msg =>
          if decide (d = db) then store_LogEvent ns svc msg st else st
      | _ => st
      end
  end.

(** The store behind [db] after the calls of a trace. *)
Definition store_after (db : history.DB) (t : trace) (st : Store) : Store :=
  fold_left (store_step db) t st.

(** The text of the audit event of a release that ended with [err]. *)
Definition release_event (err : option error) : string :=
  match err with
  | Some e => "Release failed: " +:+ Error e
  | None => "Release succeeded"
  end.

(** The calls of a release on a configured platform that answered
    [err]. *)
Definition release_trace (s : service) (k : kubernetes.Cluster)
    (namespace service : string) (newDef : list byte) (updatePeriod : Z)
    (err : option error) : trace :=
  [ Ev (ChangeState (history s) namespace service history.StateInProgress) tt;
    Ev (ClusterRelease k namespace service newDef updatePeriod) err;
    Ev (LogEvent (history s) namespace service (release_event err)) tt;
    Ev (ChangeState (history s) namespace service history.StateRest) tt ].

(** ** The calls and the result of a successful ServiceImages *)

Section correlation.

Variable ParseImage : string -> registry.Image.
Variable Image_Repository : registry.Image -> string.

(** The look-up of the repository of one container's running image,
    with its answer. *)
Definition lookup_of (s : service) (c : platform.Container)
    (answer : registry.Repository * option error) : event :=
  Ev (GetRepository (registry s)
        (Image_Repository (ParseImage (platform.Image c))))
     answer.

(** One successful look-up per container, in the order of the
    containers. *)
Definition lookups (s : service) (containers : list platform.Container)
    (repos : list registry.Repository) : trace :=
  zip_with (fun c r => lookup_of s c (r, None)) containers repos.

(** Each container with the images of the repository found for it. *)
Definition views (containers : list platform.Container)
    (repos : list registry.Repository) : list ContainerImages :=
  zip_with (fun c r => mkContainerImages c (registry.Images r))
    containers repos.

End correlation.

(** ** The repository of an image reference *)

(** The part of a string before its first colon, and the part after. *)
Fixpoint before_colon (s : string) : string :=
  match s with
  | EmptyString => EmptyString
  | String c rest =>
      if Ascii.eqb c ":"%char then EmptyString else String c (before_colon rest)
  end.

Fixpoint after_colon (s : string) : string :=
  match s with
  | EmptyString => EmptyString
  | String c rest => if Ascii.eqb c ":"%char then rest else after_colon rest
  end.

Fixpoint has_colon (s : string) : bool :=
  match s with
  | EmptyString => false
  | String c rest => if Ascii.eqb c ":"%char then true else has_colon rest
  end.

(** Modelled from the spec: registry.ParseImage is not under src/.  An
    image reference names a repository and, after a colon, a tag; the
    split is at the first colon, which is right for the references whose
    repository has no colon of its own (no registry port). *)
Definition ParseImage_spec (image : string) : registry.Image :=
  registry.mkImage (before_colon image) (after_colon image) 0.

(** Modelled from the spec: the method Repository of registry.Image is not
    under src/.  The repository identifier is the image reference with
    the tag component stripped. *)
Definition Repository_spec (i : registry.Image) : string :=
  registry.Name i.

(** ** A running example

    The end-to-end scenario of the specification: workload "web" of
    namespace "prod", released with a budget of 30 seconds. *)
Definition reg0 : registry.Client := registry.ClientAt 1.
Definition k8s0 : kubernetes.Cluster := kubernetes.ClusterAt 1.
Definition auto0 : automator.Automator := automator.AutomatorAt 1.
Definition db0 : history.DB := history.DBAt 1.

(** The service with a platform, and the one constructed without. *)
Definition fluxd : service := NewService reg0 (Some k8s0) auto0 db0.
Definition fluxd_no_platform : service := NewService reg0 None auto0 db0.

Definition thirty_seconds : Z := 30000000000.
Definition timeout_error : error := errorString "timeout".
Definition empty_store : Store := {| register := ∅; log := ∅ |}.

(** The images of repository "app", newest first. *)
Definition app_v3 : registry.Image := registry.mkImage "app" "v3" 3.
Definition app_v2 : registry.Image := registry.mkImage "app" "v2" 2.
Definition app_v1 : registry.Image := registry.mkImage "app" "v1" 1.
Definition app : registry.Repository :=
  registry.mkRepository [app_v3; app_v2; app_v1].

(** A record that a store holds for workload "api". *)
Definition history_of_api : history.History :=
  history.mkHistory "api" history.StateRest ["Release succeeded"].

(** A record that a store holds for workload "web". *)
Definition history_of_web : history.History :=
  history.mkHistory "web" history.StateRest ["Release succeeded"].

(** The container of "web", running "app:v1", and a second container
    whose repository the registry does not know. *)
Definition web : platform.Container := platform.mkContainer "web" "app:v1".
Definition sidecar : platform.Container :=
  platform.mkContainer "sidecar" "proxy:v2".
Definition not_found : error := errorString "repository not found".

(** ** Collaborators for the running example *)

(** Modelled from the spec: none of the collaborators is under src/.  A
    registry is its repositories by identifier; a platform is the
    containers of its workloads, the workloads of its namespaces and the
    answer it gives to a rolling update; the history is the store behind
    [db0]. *)
Record World : Type := mkWorld {
  repositories : gmap string registry.Repository;
  containers_of : gmap (string * string) (list platform.Container);
  services_of : gmap string (list platform.Service);
  rolling_update : option error;
  automated : gset (string * string);
  store : Store
}.

(** What the store says of one workload: ErrNoHistory when it has
    neither a register nor a log for it. *)
Definition store_EventsForService (st : Store) (namespace service : string)
    : history.History * option error :=
  match state_of st namespace service, log st !! (namespace, service) with
  | None, None =>
      (history.mkHistory "" history.StateUnknown [], Some ErrNoHistory)
  | state, events =>
      (history.mkHistory service (default history.StateUnknown state)
         (default [] events),
       None)
  end.

(** What the store says of all the workloads of a namespace. *)
Definition store_AllEvents (st : Store) (namespace : string)
    : gmap string history.History :=
  set_fold
    (fun (key : string * string) (acc : gmap string history.History) =>
       if decide (key.1 = namespace) then
         <[ key.2 := (store_EventsForService st key.1 key.2).1 ]> acc
       else acc)
    ∅ (dom (register st) ∪ dom (log st)).

Definition with_store (w : World) (st : Store) : World :=
  {| repositories := repositories w;
     containers_of := containers_of w;
     services_of := services_of w;
     rolling_update := rolling_update w;
     automated := automated w;
     store := st |}.

Definition with_automated (w : World) (a : gset (string * string)) : World :=
  {| repositories := repositories w;
     containers_of := containers_of w;
     services_of := services_of w;
     rolling_update := rolling_update w;
     automated := a;
     store := store w |}.

Definition double : handler World :=
  fun R e =>
    match e in leafE R return World -> R * World with
    | GetRepository _ x => fun w =>
        (match repositories w !! x with
         | Some repo => (repo, None)
         | None => (registry.mkRepository [], Some not_found)
         end, w)
    | ContainersFor _ ns svc => fun w =>
        ((default [] (containers_of w !! (ns, svc)), None), w)
    | ClusterServices _ ns => fun w =>
        ((default [] (services_of w !! ns), None), w)
    | ClusterRelease _ _ _ _ _ => fun w => (rolling_update w, w)
    | AllEvents d ns => fun w => ((store_AllEvents (store w) ns, None), w)
    | EventsForService d ns svc => fun w =>
        (store_EventsForService (store w) ns svc, w)
    | ChangeState d ns svc state => fun w =>
        (tt, with_store w (store_step db0 (store w) (Ev (ChangeState d ns svc state) tt)))
    | LogEvent d ns svc msg => fun w =>
        (tt, with_store w (store_step db0 (store w) (Ev (LogEvent d ns svc msg) tt)))
    | Enable _ ns svc => fun w =>
        (tt, with_automated w ({[ (ns, svc) ]} ∪ automated w))
    | Disable _ ns svc => fun w =>
        (tt, with_automated w (automated w ∖ {[ (ns, svc) ]}))
    end.

(** The world of the specification's scenario, with the answer the
    platform will give to a rolling update. *)
Definition world0 (answer : option error) : World :=
  {| repositories := {[ "app" := app ]};
     containers_of := {[ ("prod", "web") := [web] ]};
     services_of := {[ "prod" := [platform.mkService "web" "app:v1"] ]};
     rolling_update := answer;
     automated := ∅;
     store := empty_store |}.

(** ** More readings of a trace *)

(** The collaborator a call is made on. *)
Inductive collaborator : Type :=
| TheRegistry (c : registry.Client)
| ThePlatform (k : kubernetes.Cluster)
| TheHistory (db : history.DB)
| TheAutomator (a : automator.Automator).

Definition collaborator_of (ev : event) : collaborator :=
  match ev with
  | Ev e _ =>
      match e with
      | GetRepository c _ => TheRegistry c
      | ContainersFor k _ _ => ThePlatform k
      | ClusterServices k _ => ThePlatform k
      | ClusterRelease k _ _ _ _ => ThePlatform k
      | AllEvents db _ => TheHistory db
      | EventsForService db _ _ => TheHistory db
      | ChangeState db _ _ _ => TheHistory db
      | LogEvent db _ _ _ => TheHistory db
      | Enable a _ _ => TheAutomator a
      | Disable a _ _ => TheAutomator a
      end
  end.

(** The error with which the platform answered a request for the
    containers of a workload. *)
Definition containers_error (ev : event) : option error :=
  match ev with
  | Ev e r =>
      match e in leafE R return R -> option error with
      | ContainersFor _ _ _ => fun r => snd r
      | _ => fun _ => None
      end r
  end.

(** The text of an event that a call logs. *)
Definition logged (ev : event) : option string :=
  match ev with
  | Ev e _ =>
      match e with
      | LogEvent _ _ _ msg => Some msg
      | _ => None
      end
  end.

(** The repository look-ups of a trace. *)
Definition is_lookup (ev : event) : bool :=
  match ev with
  | Ev e _ =>
      match e with
      | GetRepository _ _ => true
      | _ => false
      end
  end.

(** Every call of the trace is made on one of the collaborators
    listed. *)
Definition asks_only (allowed : list collaborator) (t : trace) : Prop :=
  Forall (fun ev => In (collaborator_of ev) allowed) t.

(** The platform of a service, none when the reference is nil. *)
Definition platform_of (s : service) : list collaborator :=
  match platform s with
  | Some k => [ThePlatform k]
  | None => []
  end.

(** ** Release around a rolling update, ServiceImages through nil *)

(** The function that Release defers (lines 137-144 of service.go); it
    reads the named result [err]. *)
Definition Release_deferred (s : service) (namespace service : string)
    (err : option error) : prog unit :=
  let* _ :=
    match err with
    | Some e =>
        call (LogEvent (history s) namespace service
                ("Release failed: " +:+ Error e))
    | None =>
        call (LogEvent (history s) namespace service "Release succeeded")
    end in
  call (ChangeState (history s) namespace service history.StateRest).

(** Release past its nil check, with [update] in the place of the call
    s.platform.Release(...): what the rolling update does is the
    platform's, a panic included. *)
Definition Release_around (s : service) (namespace service : string)
    (update : prog (option error)) : prog (option error) :=
  let* _ := call (ChangeState (history s) namespace service
                    history.StateInProgress) in
  with_defer None (Release_deferred s namespace service) update.

(** A method call through [s.platform] that leaves open what the method
    does when it is called through the nil pointer: it does
    [through_nil]. *)
Definition on_cluster_or {R : Type} (through_nil : prog R)
    (p : option kubernetes.Cluster) (m : kubernetes.Cluster -> leafE R)
    : prog R :=
  match p with
  | Some k => call (m k)
  | None => through_nil
  end.

(** ServiceImages (lines 88-102), with [through_nil] for what
    ContainersFor does when s.platform is nil. *)
Definition ServiceImages_or (ParseImage : string -> registry.Image)
    (Image_Repository : registry.Image -> string)
    (through_nil : prog (list platform.Container * option error))
    (s : service) (namespace service : string)
    : prog (list ContainerImages * option error) :=
  let* '(containers, err) :=
    on_cluster_or through_nil (platform s)
      (fun k => ContainersFor k namespace service) in
  match err with
  | Some e => Ret ([], Some e)
  | None =>
      service.range_containers ParseImage Image_Repository s containers []
  end.

(** The calls on the history of a release whose rolling update
    panicked. *)
Definition panicked_release_trace (s : service) (namespace service : string)
    : trace :=
  [ Ev (ChangeState (history s) namespace service history.StateInProgress) tt;
    Ev (LogEvent (history s) namespace service "Release succeeded") tt;
    Ev (ChangeState (history s) namespace service history.StateRest) tt ].

(** ** General facts on executions *)

Section executions.

Context {A : Type}.

(** Whatever the collaborators do, a program has an execution: the one
    [run] computes. *)
Lemma exec_run {W : Type} (h : handler W) (p : prog A) (w : W) :
  exec p (run h p w).1.2 (run h p w).1.1.
Proof.
  revert w. induction p as [a | v | R e k IH]; intros w; simpl; auto.
  destruct (h R e w) as [r w1] eqn:Hh.
  specialize (IH r w1).
  destruct (run h (k r) w1) as [[o t] w2]; simpl in *.
  exists r, t. auto.
Qed.

Lemma exec_call_iff (e : leafE A) (t : trace) (o : outcome A) :
  exec (call e) t o <-> exists r, t = [Ev e r] /\ o = Returned r.
Proof.
  unfold call; simpl. split.
  - intros (r & t' & -> & -> & ->). eauto.
  - intros (r & -> & ->). exists r, []. auto.
Qed.

Lemma exec_bind_iff {B : Type} (p : prog A) (f : A -> prog B)
    (t : trace) (o : outcome B) :
  exec (bind p f) t o <->
    (exists a t1 t2,
        exec p t1 (Returned a) /\ exec (f a) t2 o /\ t = (t1 ++ t2)%list)
    \/ (exists v, exec p t (Panicked v) /\ o = Panicked v).
Proof.
  revert t. induction p as [a | v | R e k IH]; intros t; simpl.
  - split.
    + intros H. left. exists a, [], t. auto.
    + intros [(a' & t1 & t2 & (-> & Ha) & H & ->) | (v & (_ & Hv) & _)].
      * inversion Ha. subst a'. exact H.
      * discriminate Hv.
  - split.
    + intros (-> & ->). right. exists v. auto.
    + intros [(a' & t1 & t2 & (_ & Ha) & _) | (v' & (-> & Hv) & ->)].
      * discriminate Ha.
      * inversion Hv. auto.
  - split.
    + intros (r & t' & -> & H). apply IH in H.
      destruct H as [(a & t1 & t2 & H1 & H2 & ->) | (v & H1 & ->)].
      * left. exists a, (Ev e r :: t1), t2. split; [|auto].
        exists r, t1. auto.
      * right. exists v. split; [|auto]. exists r, t'. auto.
    + intros [(a & t1 & t2 & (r & t' & -> & H1) & H2 & ->)
             | (v & (r & t' & -> & H1) & ->)].
      * exists r, (t' ++ t2)%list. split; [reflexivity|].
        apply IH. left. exists a, t', t2. auto.
      * exists r, t'. split; [reflexivity|].
        apply IH. right. exists v. auto.
Qed.

End executions.

Section deferred.

Context {A : Type}.

(** A deferred function runs after the body, on a return with the
    returned value and on a panic with the zero value; the outcome of the
    body stands. *)
Lemma with_defer_returns (zero : A) (deferred : A -> prog unit)
    (body : prog A) (a : A) (t1 t2 : trace) :
  exec body t1 (Returned a) ->
  exec (deferred a) t2 (Returned tt) ->
  exec (with_defer zero deferred body) (t1 ++ t2)%list (Returned a).
Proof.
  revert t1. induction body as [a' | v | R e k IH]; intros t1; simpl.
  - intros [-> Ha] Hd. injection Ha as ->. simpl.
    apply exec_bind_iff. left. exists tt, t2, []. simpl.
    rewrite app_nil_r. auto.
  - intros [_ Hv]. discriminate Hv.
  - intros (r & t' & -> & Hb) Hd. exists r, (t' ++ t2)%list.
    split; [reflexivity|]. apply IH; assumption.
Qed.

Lemma with_defer_panics (zero : A) (deferred : A -> prog unit)
    (body : prog A) (v : string) (t1 t2 : trace) :
  exec body t1 (Panicked v) ->
  exec (deferred zero) t2 (Returned tt) ->
  exec (with_defer zero deferred body) (t1 ++ t2)%list (Panicked v).
Proof.
  revert t1. induction body as [a' | v' | R e k IH]; intros t1; simpl.
  - intros [_ Ha]. discriminate Ha.
  - intros [-> Hv] Hd. injection Hv as ->. simpl.
    apply exec_bind_iff. left. exists tt, t2, []. simpl.
    rewrite app_nil_r. auto.
  - intros (r & t' & -> & Hb) Hd. exists r, (t' ++ t2)%list.
    split; [reflexivity|]. apply IH; assumption.
Qed.

End deferred.

(** The repository of a reference "repository:tag" is the repository. *)
Lemma Repository_spec_strips_tag (repository tag : string) :
  has_colon repository = false ->
  Repository_spec (ParseImage_spec (repository +:+ ":" +:+ tag)) = repository.
Proof.
  unfold Repository_spec, ParseImage_spec; simpl.
  induction repository as [|c rest IH]; simpl; [reflexivity|].
  destruct (Ascii.eqb c ":"%char); [discriminate|].
  intros H. rewrite IH by exact H. reflexivity.
Qed.

(** ** Release *)

Section release.

Variables (s : service) (k : kubernetes.Cluster).
Variables (namespace workload : string) (newDef : list byte) (updatePeriod : Z).
Hypothesis configured : platform s = Some k.

(** On a configured platform a release makes four calls, whatever the
    platform answers, and returns the platform's answer. *)
Lemma Release_exec (t : trace) (o : outcome (option error)) :
  exec (service.Release s namespace workload newDef updatePeriod) t o <->
  exists err,
    t = release_trace s k namespace workload newDef updatePeriod err
    /\ o = Returned err.
Proof.
  unfold service.Release, release_trace. rewrite configured. simpl. split.
  - intros ([] & t1 & -> & err & t2 & -> & H).
    exists err. destruct err as [e|]; simpl in H;
      destruct H as ([] & t3 & -> & [] & t4 & -> & -> & ->); auto.
  - intros (err & -> & ->).
    exists tt; eexists; split; [reflexivity|].
    exists err; eexists; split; [reflexivity|].
    destruct err as [e|]; simpl;
      (exists tt; eexists; split; [reflexivity|]);
      (exists tt; eexists; split; [reflexivity|]); auto.
Qed.

(** What the four calls do to the store behind the service's history. *)
Lemma release_trace_store (err : option error) (st : Store) :
  let st' :=
    store_after (history s)
      (release_trace s k namespace workload newDef updatePeriod err) st in
  events_of st' namespace workload
    = (events_of st namespace workload ++ [release_event err])%list
  /\ state_of st' namespace workload = Some history.StateRest
  /\ forall ns' w', (ns', w') <> (namespace, workload) ->
       events_of st' ns' w' = events_of st ns' w'
       /\ state_of st' ns' w' = state_of st ns' w'.
Proof.
  unfold store_after, release_trace; simpl.
  rewrite !decide_True by reflexivity.
  unfold events_of, state_of, store_LogEvent, store_ChangeState; simpl.
  split; [|split].
  - rewrite lookup_insert_eq. reflexivity.
  - rewrite lookup_insert_eq. reflexivity.
  - intros ns' w' Hne.
    rewrite !lookup_insert_ne by congruence. auto.
Qed.

End release.

(** C1. A release on a service with a platform: whether the platform's
    rolling update answers nil or an error, the store behind the
    service's history gets exactly one more event for (namespace,
    workload), "Release failed: <error text>" after an error and
    "Release succeeded" otherwise, and the state register of (namespace,
    workload) is Rest afterwards; the other workloads' logs and registers
    are as before.  Either answer of the platform has its execution. *)
Theorem Release_logs_one_event_then_rest :
  forall (s : service) (k : kubernetes.Cluster) (namespace workload : string)
         (newDef : list byte) (updatePeriod : Z),
    platform s = Some k ->
    (forall err : option error,
        exists t,
          exec (service.Release s namespace workload newDef updatePeriod) t
               (Returned err)
          /\ release_answers t = [err])
    /\ (forall (t : trace) (o : outcome (option error)),
          exec (service.Release s namespace workload newDef updatePeriod) t o ->
          exists err : option error,
            release_answers t = [err]
            /\ forall st : Store,
                 let st' := store_after (history s) t st in
                 events_of st' namespace workload
                   = (events_of st namespace workload
                        ++ [match err with
                            | Some e => "Release failed: " +:+ Error e
                            | None => "Release succeeded"
                            end])%list
                 /\ state_of st' namespace workload = Some history.StateRest
                 /\ forall ns' w', (ns', w') <> (namespace, workload) ->
                      events_of st' ns' w' = events_of st ns' w'
                      /\ state_of st' ns' w' = state_of st ns' w').
Proof.
  intros s k namespace workload newDef updatePeriod Hk. split.
  - intros err.
    exists (release_trace s k namespace workload newDef updatePeriod err).
    split; [|reflexivity].
    apply (Release_exec s k _ _ _ _ Hk). eauto.
  - intros t o H.
    apply (Release_exec s k _ _ _ _ Hk) in H. destruct H as (err & -> & ->).
    exists err. split; [reflexivity|].
    intros st. apply (release_trace_store s k).
Qed.

(** The scenario of the specification, failing with "timeout" on an
    empty store. *)
Lemma Release_logs_one_event_then_rest_witness :
  platform fluxd = Some k8s0
  /\ exists t,
       exec (service.Release fluxd "prod" "web" [] thirty_seconds) t
            (Returned (Some timeout_error))
       /\ release_answers t = [Some timeout_error]
       /\ events_of (store_after db0 t empty_store) "prod" "web"
            = ["Release failed: timeout"]
       /\ state_of (store_after db0 t empty_store) "prod" "web"
            = Some history.StateRest.
Proof.
  split; [reflexivity|].
  destruct (Release_logs_one_event_then_rest fluxd k8s0 "prod" "web" []
              thirty_seconds eq_refl) as [Hsome Hall].
  destruct (Hsome (Some timeout_error)) as (t & Hexec & Hans).
  exists t. split; [exact Hexec|]. split; [exact Hans|].
  destruct (Hall t _ Hexec) as (err & Herr & Hst).
  rewrite Hans in Herr. injection Herr as <-.
  destruct (Hst empty_store) as (Hev & Hstate & _).
  split; [exact Hev | exact Hstate].
Defined.

(** C3. A release on a service with a platform returns to its caller
    exactly what the platform's rolling update answered, nil or the
    error: the rolling update is asked once, and its answer is the
    result, the deferred history calls notwithstanding.  Either answer of
    the platform has its execution. *)
Theorem Release_returns_platform_answer :
  forall (s : service) (k : kubernetes.Cluster) (namespace workload : string)
         (newDef : list byte) (updatePeriod : Z),
    platform s = Some k ->
    (forall err : option error,
        exec (service.Release s namespace workload newDef updatePeriod)
             (release_trace s k namespace workload newDef updatePeriod err)
             (Returned err))
    /\ (forall (t : trace) (o : outcome (option error)),
          exec (service.Release s namespace workload newDef updatePeriod) t o ->
          exists err : option error,
            release_answers t = [err] /\ o = Returned err).
Proof.
  intros s k namespace workload newDef updatePeriod Hk. split.
  - intros err. apply (Release_exec s k _ _ _ _ Hk). eauto.
  - intros t o H.
    apply (Release_exec s k _ _ _ _ Hk) in H. destruct H as (err & -> & ->).
    exists err. split; reflexivity.
Qed.

Lemma Release_returns_platform_answer_witness :
  platform fluxd = Some k8s0
  /\ exec (service.Release fluxd "prod" "web" [] thirty_seconds)
          (release_trace fluxd k8s0 "prod" "web" [] thirty_seconds
             (Some timeout_error))
          (Returned (Some timeout_error))
  /\ exec (service.Release fluxd "prod" "web" [] thirty_seconds)
          (release_trace fluxd k8s0 "prod" "web" [] thirty_seconds None)
          (Returned None).
Proof.
  split; [reflexivity|].
  destruct (Release_returns_platform_answer fluxd k8s0 "prod" "web" []
              thirty_seconds eq_refl) as [Hsome _].
  split; apply Hsome.
Defined.

(** ** A service constructed without a platform *)

(** C2. Constructed without a platform, Services and Release both return
    ErrNoPlatformConfigured and call no collaborator at all; in
    particular the store behind the history is as it was: no register
    written, no event appended. *)
Theorem no_platform_is_reported_without_mutation :
  forall (reg : registry.Client) (auto : automator.Automator) (db : history.DB)
         (namespace workload : string) (newDef : list byte) (updatePeriod : Z),
    let s := NewService reg None auto db in
    (forall t o,
        exec (service.Services s namespace) t o <->
        t = [] /\ o = Returned ([], Some ErrNoPlatformConfigured))
    /\ (forall t o,
          exec (service.Release s namespace workload newDef updatePeriod) t o <->
          t = [] /\ o = Returned (Some ErrNoPlatformConfigured))
    /\ (forall t o st,
          exec (service.Release s namespace workload newDef updatePeriod) t o ->
          store_after db t st = st).
Proof.
  intros reg auto db namespace workload newDef updatePeriod s.
  split; [|split]; simpl; try tauto.
  intros t o st [-> _]. reflexivity.
Qed.

Lemma no_platform_is_reported_without_mutation_witness :
  exec (service.Services fluxd_no_platform "prod") []
       (Returned ([], Some ErrNoPlatformConfigured))
  /\ exec (service.Release fluxd_no_platform "prod" "web" [] thirty_seconds) []
          (Returned (Some ErrNoPlatformConfigured))
  /\ store_after db0 [] empty_store = empty_store.
Proof.
  destruct (no_platform_is_reported_without_mutation reg0 auto0 db0
              "prod" "web" [] thirty_seconds) as (HS & HR & Hst).
  split; [apply HS; split; reflexivity|].
  split; [apply HR; split; reflexivity|].
  apply (Hst [] (Returned (Some ErrNoPlatformConfigured))).
  apply HR; split; reflexivity.
Defined.

(** ** Images *)

Lemma Images_exec (s : service) (repository : string)
    (t : trace) (o : outcome (list registry.Image * option error)) :
  exec (service.Images s repository) t o <->
  exists repo err,
    t = [Ev (GetRepository (registry s) repository) (repo, err)]
    /\ o = Returned (match err with
                     | Some e => ([], Some e)
                     | None => (registry.Images repo, None)
                     end).
Proof.
  unfold service.Images; simpl. split.
  - intros ([repo err] & t' & -> & H). exists repo, err.
    destruct err; simpl in H; destruct H as [-> ->]; auto.
  - intros (repo & err & -> & ->). exists (repo, err), [].
    split; [reflexivity|]. destruct err; simpl; auto.
Qed.

(** C8. Images passes through: it asks the registry for the repository
    once and nothing else; when the registry answers with a repository
    the result is that repository's image list as it stands, same images
    in the same order; when it answers with an error the result is that
    error; no call that changes a collaborator is made and the store
    behind any history is as before. *)
Theorem Images_passes_through :
  forall (s : service) (repository : string),
    (forall repo err,
        exec (service.Images s repository)
             [Ev (GetRepository (registry s) repository) (repo, err)]
             (Returned (match err with
                        | Some e => ([], Some e)
                        | None => (registry.Images repo, None)
                        end)))
    /\ (forall t o,
          exec (service.Images s repository) t o ->
          exists repo err,
            t = [Ev (GetRepository (registry s) repository) (repo, err)]
            /\ (err = None -> o = Returned (registry.Images repo, None))
            /\ (forall e, err = Some e -> o = Returned ([], Some e))
            /\ Forall (fun ev => mutates ev = false) t
            /\ forall db st, store_after db t st = st).
Proof.
  intros s repository. split.
  - intros repo err. apply Images_exec. eauto.
  - intros t o H. apply Images_exec in H. destruct H as (repo & err & -> & ->).
    exists repo, err. split; [reflexivity|].
    split; [intros ->; reflexivity|].
    split; [intros e ->; reflexivity|].
    split; [repeat constructor | reflexivity].
Qed.

(** The images of the specification's repository "app", newest first. *)
Lemma Images_passes_through_witness :
  exec (service.Images fluxd "app")
       [Ev (GetRepository reg0 "app") (app, None)]
       (Returned ([app_v3; app_v2; app_v1], None))
  /\ Forall (fun ev => mutates ev = false)
            [Ev (GetRepository reg0 "app") (app, None)].
Proof.
  destruct (Images_passes_through fluxd "app") as [Hsome Hall].
  pose proof (Hsome app None) as He.
  split; [exact He|].
  destruct (Hall _ _ He) as (repo & err & _ & _ & _ & Hm & _). exact Hm.
Defined.

(** ** History *)

Section history_of_one.

Variables (s : service) (namespace workload : string).
Hypothesis named : workload <> "".

(** Asked for one workload, History asks the store for its events once
    and decides on the error of the answer. *)
Lemma History_exec (t : trace)
    (o : outcome (gmap string history.History * option error)) :
  exec (service.History s namespace workload) t o <->
  exists h err,
    t = [Ev (EventsForService (history s) namespace workload) (h, err)]
    /\ o = Returned
             (if decide (err = Some ErrNoHistory) then
                ({[ workload :=
                      history.mkHistory workload history.StateUnknown [] ]},
                 None)
              else
                match err with
                | Some e => (∅, Some e)
                | None => ({[ history.Service h := h ]}, None)
                end).
Proof.
  unfold service.History. rewrite decide_False by exact named.
  cbn [exec bind call]. split.
  - intros ([h err] & t' & -> & H). exists h, err.
    destruct (decide (err = Some ErrNoHistory)) as [->|Hne];
      [|destruct err as [e|]]; destruct H as [-> ->]; auto.
  - intros (h & err & -> & ->). exists (h, err), []. split; [reflexivity|].
    destruct (decide (err = Some ErrNoHistory)) as [->|Hne];
      [|destruct err as [e|]]; cbn [exec]; auto.
Qed.

End history_of_one.

(** C5. Asked for a named workload, History turns the store's
    ErrNoHistory into a success: the result maps the workload to a record
    made on the spot, with state Unknown and no events, and carries no
    error; any other error of the store is the error of the result. *)
Theorem History_normalizes_no_history :
  forall (s : service) (namespace workload : string),
    workload <> "" ->
    (forall h,
        exec (service.History s namespace workload)
             [Ev (EventsForService (history s) namespace workload)
                 (h, Some ErrNoHistory)]
             (Returned
                ({[ workload :=
                      history.mkHistory workload history.StateUnknown [] ]},
                 None)))
    /\ (forall h e,
          e <> ErrNoHistory ->
          exec (service.History s namespace workload)
               [Ev (EventsForService (history s) namespace workload)
                   (h, Some e)]
               (Returned (∅, Some e)))
    /\ (forall t o,
          exec (service.History s namespace workload) t o ->
          exists h err,
            t = [Ev (EventsForService (history s) namespace workload) (h, err)]
            /\ (err = Some ErrNoHistory ->
                exists r,
                  o = Returned ({[ workload := r ]}, None)
                  /\ history.State r = history.StateUnknown
                  /\ history.Events r = [])
            /\ (forall e, err = Some e -> e <> ErrNoHistory ->
                o = Returned (∅, Some e))).
Proof.
  intros s namespace workload Hw. split; [|split].
  - intros h. apply (History_exec s namespace workload Hw).
    exists h, (Some ErrNoHistory). split; [reflexivity|].
    rewrite decide_True by reflexivity. reflexivity.
  - intros h e He. apply (History_exec s namespace workload Hw).
    exists h, (Some e). split; [reflexivity|].
    rewrite decide_False by congruence. reflexivity.
  - intros t o H. apply (History_exec s namespace workload Hw) in H.
    destruct H as (h & err & -> & ->). exists h, err.
    split; [reflexivity|]. split.
    + intros ->. rewrite decide_True by reflexivity. eauto.
    + intros e -> He. rewrite decide_False by congruence. reflexivity.
Qed.

(** The specification's workload without history, and a store that is
    down. *)
Lemma History_normalizes_no_history_witness :
  "svc-with-no-history" <> ""
  /\ exec (service.History fluxd "prod" "svc-with-no-history")
          [Ev (EventsForService db0 "prod" "svc-with-no-history")
              (history.mkHistory "" history.StateUnknown [],
               Some ErrNoHistory)]
          (Returned
             ({[ "svc-with-no-history" :=
                   history.mkHistory "svc-with-no-history"
                     history.StateUnknown [] ]},
              None))
  /\ exec (service.History fluxd "prod" "svc-with-no-history")
          [Ev (EventsForService db0 "prod" "svc-with-no-history")
              (history.mkHistory "" history.StateUnknown [],
               Some timeout_error)]
          (Returned (∅, Some timeout_error)).
Proof.
  assert (Hne : "svc-with-no-history" <> "") by discriminate.
  split; [exact Hne|].
  destruct (History_normalizes_no_history fluxd "prod" "svc-with-no-history"
              Hne) as (Hnone & Hother & _).
  split; [apply Hnone|]. apply Hother. discriminate.
Defined.

(** C6, as stated, fails: the key of the entry is the Service field of
    the record the store answered with.  A store that answers the
    request for "web" with a record named "api" makes History return the
    one entry under "api", and nothing under "web". *)
Lemma History_key_is_the_record_name :
  "web" <> ""
  /\ exec (service.History fluxd "prod" "web")
          [Ev (EventsForService db0 "prod" "web") (history_of_api, None)]
          (Returned ({[ "api" := history_of_api ]}, None))
  /\ ({[ "api" := history_of_api ]} : gmap string history.History) !! "web"
       = None
  /\ ~ exists r : history.History,
         ({[ "api" := history_of_api ]} : gmap string history.History)
         = {[ "web" := r ]}.
Proof.
  assert (Hne : "web" <> "") by discriminate.
  split; [exact Hne|]. split; [|split].
  - apply (History_exec fluxd "prod" "web" Hne).
    exists history_of_api, None. split; reflexivity.
  - apply lookup_singleton_ne. discriminate.
  - intros [r Hr].
    apply (f_equal (fun m : gmap string history.History => m !! "web")) in Hr.
    rewrite lookup_singleton_eq, lookup_singleton_ne in Hr by discriminate.
    discriminate Hr.
Qed.

(** C6, amended.  Asked for a named workload, History, when it succeeds,
    returns a mapping of exactly one entry.  The key of the entry is the
    requested workload when the record is made for a store without
    history; when the store answered with a record, the key is the
    Service field of that record, hence the requested workload whenever
    the store names its record so. *)
Theorem History_returns_one_entry :
  forall (s : service) (namespace workload : string),
    workload <> "" ->
    (forall h,
        exec (service.History s namespace workload)
             [Ev (EventsForService (history s) namespace workload) (h, None)]
             (Returned ({[ history.Service h := h ]}, None)))
    /\ (forall t m,
          exec (service.History s namespace workload) t (Returned (m, None)) ->
          exists h err,
            t = [Ev (EventsForService (history s) namespace workload) (h, err)]
            /\ size m = 1
            /\ ((err = Some ErrNoHistory
                 /\ m = {[ workload :=
                             history.mkHistory workload
                               history.StateUnknown [] ]})
                \/ (err = None /\ m = {[ history.Service h := h ]}))
            /\ (err = None -> history.Service h = workload ->
                m = {[ workload := h ]})).
Proof.
  intros s namespace workload Hw. split.
  - intros h. apply (History_exec s namespace workload Hw).
    exists h, None. split; reflexivity.
  - intros t m H. apply (History_exec s namespace workload Hw) in H.
    destruct H as (h & err & -> & Ho). exists h, err.
    split; [reflexivity|].
    destruct (decide (err = Some ErrNoHistory)) as [->|Hne].
    + injection Ho as ->. split; [apply map_size_singleton|].
      split; [left; auto | discriminate].
    + destruct err as [e|]; [discriminate Ho|].
      injection Ho as ->. split; [apply map_size_singleton|].
      split; [right; auto|]. intros _ <-. reflexivity.
Qed.

Lemma History_returns_one_entry_witness :
  "web" <> ""
  /\ exec (service.History fluxd "prod" "web")
          [Ev (EventsForService db0 "prod" "web") (history_of_web, None)]
          (Returned ({[ "web" := history_of_web ]}, None))
  /\ size ({[ "web" := history_of_web ]} : gmap string history.History) = 1.
Proof.
  assert (Hne : "web" <> "") by discriminate.
  split; [exact Hne|].
  destruct (History_returns_one_entry fluxd "prod" "web" Hne) as [Hsome Hall].
  pose proof (Hsome history_of_web) as He.
  split; [exact He|].
  destruct (Hall _ _ He) as (h & err & _ & Hsize & _). exact Hsize.
Defined.

(** ** ServiceImages *)

Section service_images.

Variable ParseImage : string -> registry.Image.
Variable Image_Repository : registry.Image -> string.
Variable s : service.

Local Abbreviation range_containers :=
  (service.range_containers ParseImage Image_Repository s).
Local Abbreviation lookup_of := (lookup_of ParseImage Image_Repository s).
Local Abbreviation lookups := (lookups ParseImage Image_Repository s).

Lemma views_containers (containers : list platform.Container)
    (repos : list registry.Repository) :
  length repos = length containers ->
  map Container (views containers repos) = containers.
Proof.
  revert repos. induction containers as [|c cs IH]; intros [|r rs] Hlen;
    simpl in *; try discriminate; [reflexivity|].
  f_equal. apply IH. congruence.
Qed.

(** The loop ends without error exactly when every look-up it makes
    succeeds; it then has added one entry per container. *)
Lemma range_containers_success (containers : list platform.Container)
    (acc : list ContainerImages) (t : trace) (result : list ContainerImages) :
  exec (range_containers containers acc) t (Returned (result, None)) <->
  exists repos,
    length repos = length containers
    /\ t = lookups containers repos
    /\ result = (acc ++ views containers repos)%list.
Proof.
  revert acc t. induction containers as [|c cs IH]; intros acc t; simpl.
  - split.
    + intros [-> H]. injection H as <-. exists [].
      rewrite app_nil_r. auto.
    + intros ([|r rs] & Hlen & -> & ->); [|discriminate].
      rewrite app_nil_r. auto.
  - split.
    + intros ([repo [e|]] & t' & -> & H); simpl in H.
      * destruct H as [_ H]. discriminate H.
      * apply IH in H. destruct H as (rs & Hlen & -> & ->).
        exists (repo :: rs). simpl. rewrite <- app_assoc.
        split; [congruence|]. split; reflexivity.
    + intros ([|r rs] & Hlen & -> & ->); [discriminate|].
      exists (r, None), (lookups cs rs). split; [reflexivity|]. simpl.
      apply IH. exists rs. rewrite <- app_assoc. simpl in Hlen.
      split; [congruence|]. split; reflexivity.
Qed.

(** A look-up that fails ends the loop at once, with the error and
    without the entries made so far. *)
Lemma range_containers_failure (containers : list platform.Container)
    (acc : list ContainerImages) (t : trace)
    (o : outcome (list ContainerImages * option error)) (e : error) :
  exec (range_containers containers acc) t o ->
  Exists (fun ev => lookup_error ev = Some e) t ->
  o = Returned ([], Some e).
Proof.
  revert acc t. induction containers as [|c cs IH]; intros acc t; simpl.
  - intros [-> _] H. inversion H.
  - intros ([repo [e'|]] & t' & -> & H) HE; simpl in H.
    + destruct H as [-> ->].
      inversion HE as [? ? Hhd | ? ? Htl]; subst.
      * simpl in Hhd. congruence.
      * inversion Htl.
    + inversion HE as [? ? Hhd | ? ? Htl]; subst.
      * simpl in Hhd. discriminate Hhd.
      * eapply IH; eassumption.
Qed.

(** The loop on containers of which one fails after the ones before
    it succeeded. *)
Lemma range_containers_fails_at (before after : list platform.Container)
    (c : platform.Container) (repos : list registry.Repository)
    (r : registry.Repository) (e : error) (acc : list ContainerImages) :
  length repos = length before ->
  exec (range_containers (before ++ c :: after)%list acc)
       (lookups before repos ++ [lookup_of c (r, Some e)])%list
       (Returned ([], Some e)).
Proof.
  revert repos acc. induction before as [|b bs IH]; intros [|x xs] acc Hlen;
    simpl in *; try discriminate.
  - exists (r, Some e), []. simpl. auto.
  - exists (x, None), (lookups bs xs ++ [lookup_of c (r, Some e)])%list.
    split; [reflexivity|]. simpl. apply IH. congruence.
Qed.

End service_images.

(** C4. ServiceImages fails fast.  For a workload of N containers, as
    soon as the look-up of one container's repository fails, ServiceImages
    returns that error and a nil list: not the entries of the containers
    before it, not a list with a gap.  The first conjunct has the
    execution for a failure at any position; the second says that a
    failed look-up anywhere in an execution decides its result. *)
Theorem ServiceImages_fails_fast :
  forall (ParseImage : string -> registry.Image)
         (Image_Repository : registry.Image -> string)
         (s : service) (k : kubernetes.Cluster) (namespace workload : string),
    platform s = Some k ->
    (forall (before after : list platform.Container) (c : platform.Container)
            (repos : list registry.Repository) (r : registry.Repository)
            (e : error),
        length repos = length before ->
        exec (service.ServiceImages ParseImage Image_Repository s
                namespace workload)
             (Ev (ContainersFor k namespace workload)
                 ((before ++ c :: after)%list, None)
                :: lookups ParseImage Image_Repository s before repos
                ++ [lookup_of ParseImage Image_Repository s c (r, Some e)])%list
             (Returned ([], Some e)))
    /\ (forall t o e,
          exec (service.ServiceImages ParseImage Image_Repository s
                  namespace workload) t o ->
          Exists (fun ev => lookup_error ev = Some e) t ->
          o = Returned ([], Some e)).
Proof.
  intros PI IR s k namespace workload Hk.
  unfold service.ServiceImages, on_cluster. rewrite Hk.
  cbn [bind call exec]. split.
  - intros before after c repos r e Hlen.
    eexists (_, None), _. split; [reflexivity|].
    apply range_containers_fails_at. exact Hlen.
  - intros t o e ([containers [e'|]] & t' & -> & H) HE.
    + destruct H as [-> ->].
      inversion HE as [? ? Hhd | ? ? Htl]; subst.
      * discriminate Hhd.
      * inversion Htl.
    + inversion HE as [? ? Hhd | ? ? Htl]; subst.
      * discriminate Hhd.
      * eapply range_containers_failure; eassumption.
Qed.

(** Two containers; the look-up for the second fails. *)
Lemma ServiceImages_fails_fast_witness :
  platform fluxd = Some k8s0
  /\ exec (service.ServiceImages ParseImage_spec Repository_spec fluxd
            "prod" "web")
          [ Ev (ContainersFor k8s0 "prod" "web") ([web; sidecar], None);
            Ev (GetRepository reg0 "app") (app, None);
            Ev (GetRepository reg0 "proxy")
               (registry.mkRepository [], Some not_found) ]
          (Returned ([], Some not_found)).
Proof.
  split; [reflexivity|].
  destruct (ServiceImages_fails_fast ParseImage_spec Repository_spec fluxd
              k8s0 "prod" "web" eq_refl) as [Hsome _].
  exact (Hsome [web] [] sidecar [app] (registry.mkRepository []) not_found
           eq_refl).
Defined.

(** C7. When ServiceImages succeeds, the platform answered with the
    containers of the workload and every container had its look-up: the
    repository asked for is the one that ParseImage and Repository derive
    from the image the container runs.  The result has one entry per
    container, in the order of the containers, and the entry of a
    container holds the images of the repository found for it. *)
Theorem ServiceImages_pairs_containers_in_order :
  forall (ParseImage : string -> registry.Image)
         (Image_Repository : registry.Image -> string)
         (s : service) (namespace workload : string),
    (forall (k : kubernetes.Cluster) (containers : list platform.Container)
            (repos : list registry.Repository),
        platform s = Some k ->
        length repos = length containers ->
        exec (service.ServiceImages ParseImage Image_Repository s
                namespace workload)
             (Ev (ContainersFor k namespace workload) (containers, None)
                :: lookups ParseImage Image_Repository s containers repos)
             (Returned (views containers repos, None)))
    /\ (forall t result,
          exec (service.ServiceImages ParseImage Image_Repository s
                  namespace workload) t (Returned (result, None)) ->
          exists (k : kubernetes.Cluster)
                 (containers : list platform.Container)
                 (repos : list registry.Repository),
            platform s = Some k
            /\ length repos = length containers
            /\ t = Ev (ContainersFor k namespace workload) (containers, None)
                     :: lookups ParseImage Image_Repository s containers repos
            /\ result = views containers repos
            /\ map Container result = containers).
Proof.
  intros PI IR s namespace workload. split.
  - intros k containers repos Hk Hlen.
    unfold service.ServiceImages, on_cluster. rewrite Hk.
    cbn [bind call exec].
    eexists (_, None), _. split; [reflexivity|].
    apply range_containers_success. exists repos. auto.
  - intros t result.
    unfold service.ServiceImages, on_cluster.
    destruct (platform s) as [k|]; cbn [bind call exec].
    + intros ([containers [e|]] & t' & -> & H).
      * destruct H as [_ H]. discriminate H.
      * apply range_containers_success in H.
        destruct H as (repos & Hlen & -> & ->).
        exists k, containers, repos. simpl.
        repeat (split; [reflexivity || assumption|]).
        apply views_containers. exact Hlen.
    + intros [_ H]. discriminate H.
Qed.

(** The specification's workload "web": one container on "app:v1". *)
Lemma ServiceImages_pairs_containers_in_order_witness :
  platform fluxd = Some k8s0
  /\ exec (service.ServiceImages ParseImage_spec Repository_spec fluxd
            "prod" "web")
          [ Ev (ContainersFor k8s0 "prod" "web") ([web], None);
            Ev (GetRepository reg0 "app") (app, None) ]
          (Returned
             ([mkContainerImages web [app_v3; app_v2; app_v1]], None)).
Proof.
  split; [reflexivity|].
  destruct (ServiceImages_pairs_containers_in_order ParseImage_spec
              Repository_spec fluxd "prod" "web") as [Hsome _].
  exact (Hsome k8s0 [web] [app] eq_refl eq_refl).
Defined.

(** ** The namespace argument *)

Section namespaces.

Variable ParseImage : string -> registry.Image.
Variable Image_Repository : registry.Image -> string.
Variable s : service.
Variables ns ns' : string.

Local Ltac forwarding :=
  repeat first
    [ apply List.Forall_nil
    | apply List.Forall_cons;
      [ let H := fresh in
        simpl; intros ? H;
        first [discriminate H | injection H as <-; reflexivity]
      | ] ].

Lemma range_containers_namespace (containers : list platform.Container)
    (acc : list ContainerImages) (t : trace)
    (o : outcome (list ContainerImages * option error)) :
  exec (service.range_containers ParseImage Image_Repository s containers acc)
       t o ->
  forwards ns t
  /\ exec (service.range_containers ParseImage Image_Repository s
             containers acc)
          (map (with_namespace ns') t) o.
Proof.
  revert acc t. induction containers as [|c cs IH]; intros acc t; simpl.
  - intros [-> ->]. split; [forwarding | auto].
  - intros ([repo [e|]] & t' & -> & H); simpl in H.
    + destruct H as [-> ->]. split; [forwarding|].
      exists (repo, Some e), []. simpl. auto.
    + apply IH in H. destruct H as [Hf He].
      split; [forwarding; exact Hf|].
      exists (repo, None), (map (with_namespace ns') t'). simpl. auto.
Qed.

Lemma ServiceImages_namespace (workload : string) (t : trace)
    (o : outcome (list ContainerImages * option error)) :
  exec (service.ServiceImages ParseImage Image_Repository s ns workload) t o ->
  forwards ns t
  /\ exec (service.ServiceImages ParseImage Image_Repository s ns' workload)
          (map (with_namespace ns') t) o.
Proof.
  unfold service.ServiceImages, on_cluster.
  destruct (platform s) as [k|]; cbn [bind call exec].
  - intros ([containers [e|]] & t' & -> & H).
    + destruct H as [-> ->]. split; [forwarding|].
      exists (containers, Some e), []. simpl. auto.
    + apply range_containers_namespace in H. destruct H as [Hf He].
      split; [forwarding; exact Hf|].
      exists (containers, None), (map (with_namespace ns') t'). simpl. auto.
  - intros [-> ->]. split; [forwarding | auto].
Qed.

Lemma Services_namespace (t : trace)
    (o : outcome (list platform.Service * option error)) :
  exec (service.Services s ns) t o ->
  forwards ns t /\ exec (service.Services s ns') (map (with_namespace ns') t) o.
Proof.
  unfold service.Services. destruct (platform s) as [k|]; simpl.
  - intros (r & t' & -> & -> & ->). split; [forwarding|].
    exists r, []. simpl. auto.
  - intros [-> ->]. split; [forwarding | auto].
Qed.

Lemma History_namespace (workload : string) (t : trace)
    (o : outcome (gmap string history.History * option error)) :
  exec (service.History s ns workload) t o ->
  forwards ns t
  /\ exec (service.History s ns' workload) (map (with_namespace ns') t) o.
Proof.
  unfold service.History.
  destruct (decide (workload = "")) as [Hw|Hw]; cbn [bind call exec].
  - intros (r & t' & -> & -> & ->). split; [forwarding|].
    exists r, []. simpl. auto.
  - intros ([h err] & t' & -> & H).
    assert (t' = []) as ->.
    { destruct (decide (err = Some ErrNoHistory)); [|destruct err];
        destruct H as [-> _]; reflexivity. }
    split; [forwarding|].
    exists (h, err), []. simpl. auto.
Qed.

Lemma Release_namespace (workload : string) (newDef : list byte)
    (updatePeriod : Z) (t : trace) (o : outcome (option error)) :
  exec (service.Release s ns workload newDef updatePeriod) t o ->
  forwards ns t
  /\ exec (service.Release s ns' workload newDef updatePeriod)
          (map (with_namespace ns') t) o.
Proof.
  destruct (platform s) as [k|] eqn:Hk.
  - intros H. apply (Release_exec s k _ _ _ _ Hk) in H.
    destruct H as (err & -> & ->). split; [forwarding|].
    apply (Release_exec s k _ _ _ _ Hk). exists err. simpl. auto.
  - unfold service.Release. rewrite Hk. simpl.
    intros [-> ->]. split; [forwarding | auto].
Qed.

Lemma Automate_namespace (workload : string) (t : trace)
    (o : outcome (option error)) :
  exec (service.Automate s ns workload) t o ->
  forwards ns t
  /\ exec (service.Automate s ns' workload) (map (with_namespace ns') t) o.
Proof.
  simpl. intros ([] & t' & -> & -> & ->). split; [forwarding|].
  exists tt, []. simpl. auto.
Qed.

Lemma Deautomate_namespace (workload : string) (t : trace)
    (o : outcome (option error)) :
  exec (service.Deautomate s ns workload) t o ->
  forwards ns t
  /\ exec (service.Deautomate s ns' workload) (map (with_namespace ns') t) o.
Proof.
  simpl. intros ([] & t' & -> & -> & ->). split; [forwarding|].
  exists tt, []. simpl. auto.
Qed.

End namespaces.

(** A trace that forwards a namespace other than DefaultNamespace has no
    call with DefaultNamespace. *)
Lemma forwards_handed_on (ns : string) (t : trace) :
  forwards ns t -> handed_on ns t.
Proof.
  intros Hf. split; [exact Hf|]. intros Hns.
  unfold forwards in Hf. unfold no_default.
  induction Hf as [|ev t Hev _ IH]; constructor; [|exact IH].
  intros Hd. apply Hns. symmetry. apply Hev. exact Hd.
Qed.

(** C10. No operation applies DefaultNamespace.  Each of the six
    operations that take a namespace hands it on as it is: every call it
    makes that has a namespace argument has the operation's own there,
    the empty string included, and never DefaultNamespace unless that
    was the argument; and the namespace decides nothing, for the same
    execution with any other namespace [ns'] in the calls is an execution
    of the operation on [ns'], same answers, same outcome.  So the empty
    namespace is neither replaced by "default" nor rejected. *)
Theorem namespace_is_forwarded_verbatim :
  forall (ParseImage : string -> registry.Image)
         (Image_Repository : registry.Image -> string)
         (s : service) (ns ns' workload : string)
         (newDef : list byte) (updatePeriod : Z),
    (forall t o,
        exec (service.ServiceImages ParseImage Image_Repository s ns workload)
             t o ->
        handed_on ns t
        /\ exec (service.ServiceImages ParseImage Image_Repository s ns'
                  workload)
                (map (with_namespace ns') t) o)
    /\ (forall t o,
          exec (service.Services s ns) t o ->
          handed_on ns t
          /\ exec (service.Services s ns') (map (with_namespace ns') t) o)
    /\ (forall t o,
          exec (service.History s ns workload) t o ->
          handed_on ns t
          /\ exec (service.History s ns' workload)
                  (map (with_namespace ns') t) o)
    /\ (forall t o,
          exec (service.Release s ns workload newDef updatePeriod) t o ->
          handed_on ns t
          /\ exec (service.Release s ns' workload newDef updatePeriod)
                  (map (with_namespace ns') t) o)
    /\ (forall t o,
          exec (service.Automate s ns workload) t o ->
          handed_on ns t
          /\ exec (service.Automate s ns' workload)
                  (map (with_namespace ns') t) o)
    /\ (forall t o,
          exec (service.Deautomate s ns workload) t o ->
          handed_on ns t
          /\ exec (service.Deautomate s ns' workload)
                  (map (with_namespace ns') t) o).
Proof.
  intros PI IR s ns ns' workload newDef updatePeriod.
  assert (Hready : forall (t : trace) (P : Prop),
             forwards ns t /\ P -> handed_on ns t /\ P).
  { intros t P [Hf HP]. split; [apply forwards_handed_on; exact Hf | exact HP]. }
  split; [|split; [|split; [|split; [|split]]]]; intros t o H; apply Hready.
  - eapply ServiceImages_namespace; eassumption.
  - eapply Services_namespace; eassumption.
  - eapply History_namespace; eassumption.
  - eapply Release_namespace; eassumption.
  - eapply Automate_namespace; eassumption.
  - eapply Deautomate_namespace; eassumption.
Qed.

(** Services and Release with the empty namespace: the platform and the
    history are asked with the empty namespace, no call has "default",
    and the operations end as the platform answered; the release on
    "default" is the same release with "default" in its calls. *)
Lemma namespace_is_forwarded_verbatim_witness :
  exec (service.Services fluxd "")
       [Ev (ClusterServices k8s0 "") ([], None)] (Returned ([], None))
  /\ handed_on "" [Ev (ClusterServices k8s0 "") ([], None)]
  /\ exec (service.Release fluxd "" "web" [] thirty_seconds)
          (release_trace fluxd k8s0 "" "web" [] thirty_seconds None)
          (Returned None)
  /\ no_default (release_trace fluxd k8s0 "" "web" [] thirty_seconds None)
  /\ exec (service.Release fluxd DefaultNamespace "web" [] thirty_seconds)
          (release_trace fluxd k8s0 DefaultNamespace "web" [] thirty_seconds
             None)
          (Returned None).
Proof.
  destruct (namespace_is_forwarded_verbatim ParseImage_spec Repository_spec
              fluxd "" DefaultNamespace "web" [] thirty_seconds)
    as (_ & HS & _ & HR & _).
  assert (HeS : exec (service.Services fluxd "")
                  [Ev (ClusterServices k8s0 "") ([], None)]
                  (Returned ([], None))).
  { exists ([], None), []. split; [reflexivity|]. split; reflexivity. }
  assert (HeR : exec (service.Release fluxd "" "web" [] thirty_seconds)
                  (release_trace fluxd k8s0 "" "web" [] thirty_seconds None)
                  (Returned None)).
  { apply (Release_exec fluxd k8s0 _ _ _ _ eq_refl). exists None.
    split; reflexivity. }
  split; [exact HeS|].
  split; [exact (proj1 (HS _ _ HeS))|].
  split; [exact HeR|].
  split; [apply (proj1 (HR _ _ HeR)); discriminate|].
  exact (proj2 (HR _ _ HeR)).
Defined.

(** ** The running example, run *)

(** Against the collaborators of the example, the store that a run
    leaves is the store after the calls of the run. *)
Lemma double_store {A : Type} (p : prog A) (w : World) :
  store (run double p w).2 = store_after db0 (run double p w).1.2 (store w).
Proof.
  revert w. induction p as [a | v | R e k IH]; intros w; simpl; auto.
  destruct (double R e w) as [r w1] eqn:Hd.
  specialize (IH r w1).
  destruct (run double (k r) w1) as [[o t] w2]; simpl in *.
  rewrite IH. f_equal.
  destruct e; simpl in Hd; injection Hd as <- <-; reflexivity.
Qed.

Example scenario_Images :
  (run double (service.Images fluxd "app") (world0 None)).1.1
  = Returned ([app_v3; app_v2; app_v1], None).
Proof. reflexivity. Qed.

Example scenario_ServiceImages :
  (run double
     (service.ServiceImages ParseImage_spec Repository_spec fluxd "prod" "web")
     (world0 None)).1
  = (Returned ([mkContainerImages web [app_v3; app_v2; app_v1]], None),
     [ Ev (ContainersFor k8s0 "prod" "web") ([web], None);
       Ev (GetRepository reg0 "app") (app, None) ]).
Proof. reflexivity. Qed.

Example scenario_Release_succeeds :
  (run double (service.Release fluxd "prod" "web" [] thirty_seconds)
     (world0 None)).1.1 = Returned None
  /\ events_of
       (store (run double (service.Release fluxd "prod" "web" [] thirty_seconds)
                 (world0 None)).2) "prod" "web"
     = ["Release succeeded"]
  /\ state_of
       (store (run double (service.Release fluxd "prod" "web" [] thirty_seconds)
                 (world0 None)).2) "prod" "web"
     = Some history.StateRest.
Proof. repeat split; vm_compute; reflexivity. Qed.

Example scenario_Release_times_out :
  (run double (service.Release fluxd "prod" "web" [] thirty_seconds)
     (world0 (Some timeout_error))).1.1 = Returned (Some timeout_error)
  /\ events_of
       (store (run double (service.Release fluxd "prod" "web" [] thirty_seconds)
                 (world0 (Some timeout_error))).2) "prod" "web"
     = ["Release failed: timeout"]
  /\ state_of
       (store (run double (service.Release fluxd "prod" "web" [] thirty_seconds)
                 (world0 (Some timeout_error))).2) "prod" "web"
     = Some history.StateRest.
Proof. repeat split; vm_compute; reflexivity. Qed.

Example scenario_History_of_none :
  (run double (service.History fluxd "prod" "svc-with-no-history")
     (world0 None)).1.1
  = Returned
      ({[ "svc-with-no-history" :=
            history.mkHistory "svc-with-no-history" history.StateUnknown [] ]},
       None).
Proof. reflexivity. Qed.

(** The run of the failing release is one of the executions that the
    theorems on Release speak of. *)
Example scenario_Release_is_an_execution :
  exec (service.Release fluxd "prod" "web" [] thirty_seconds)
       (release_trace fluxd k8s0 "prod" "web" [] thirty_seconds
          (Some timeout_error))
       (Returned (Some timeout_error)).
Proof.
  exact (exec_run double
           (service.Release fluxd "prod" "web" [] thirty_seconds)
           (world0 (Some timeout_error))).
Qed.

(** ** What the operations leave alone *)

(** Look-ups leave the store behind any history as it is. *)
Lemma store_after_lookups (db : history.DB) (t : trace) (st : Store) :
  Forall (fun ev => mutates ev = false) t -> store_after db t st = st.
Proof.
  unfold store_after. intros H. revert st.
  induction H as [|ev t Hev _ IH]; intros st; simpl; [reflexivity|].
  rewrite <- (IH st) at 2. f_equal.
  destruct ev as [R e r]; destruct e; simpl in *; try reflexivity;
    discriminate Hev.
Qed.

Lemma range_containers_lookups (ParseImage : string -> registry.Image)
    (Image_Repository : registry.Image -> string) (s : service)
    (containers : list platform.Container) (acc : list ContainerImages)
    (t : trace) (o : outcome (list ContainerImages * option error)) :
  exec (service.range_containers ParseImage Image_Repository s containers acc)
       t o ->
  Forall (fun ev => collaborator_of ev = TheRegistry (registry s)
                    /\ mutates ev = false) t.
Proof.
  revert acc t. induction containers as [|c cs IH]; intros acc t; simpl.
  - intros [-> _]. constructor.
  - intros ([repo [e|]] & t' & -> & H); simpl in H.
    + destruct H as [-> _]. repeat constructor.
    + constructor; [split; reflexivity|]. eapply IH. exact H.
Qed.

(** X1. ServiceImages, Services and History only read: in every
    execution each call is a look-up, and the store behind any history
    is afterwards as it was; in particular the record that History makes
    up for a workload without history is written nowhere. *)
Theorem reading_operations_change_nothing :
  forall (ParseImage : string -> registry.Image)
         (Image_Repository : registry.Image -> string)
         (s : service) (namespace workload : string),
    (forall t o,
        exec (service.ServiceImages ParseImage Image_Repository s
                namespace workload) t o ->
        Forall (fun ev => mutates ev = false) t
        /\ forall db st, store_after db t st = st)
    /\ (forall t o,
          exec (service.Services s namespace) t o ->
          Forall (fun ev => mutates ev = false) t
          /\ forall db st, store_after db t st = st)
    /\ (forall t o,
          exec (service.History s namespace workload) t o ->
          Forall (fun ev => mutates ev = false) t
          /\ forall db st, store_after db t st = st).
Proof.
  intros PI IR s namespace workload.
  assert (Hstore : forall t : trace,
             Forall (fun ev => mutates ev = false) t ->
             Forall (fun ev => mutates ev = false) t
             /\ forall db st, store_after db t st = st).
  { intros t H. split; [exact H|]. intros db st.
    apply store_after_lookups. exact H. }
  split; [|split]; intros t o H; apply Hstore.
  - unfold service.ServiceImages, on_cluster in H.
    destruct (platform s) as [k|]; cbn [bind call exec] in H.
    + destruct H as ([containers [e|]] & t' & -> & H).
      * destruct H as [-> _]. repeat constructor.
      * constructor; [reflexivity|].
        apply range_containers_lookups in H.
        eapply Forall_impl; [exact H|]. intros ev [_ Hm]. exact Hm.
    + destruct H as [-> _]. constructor.
  - unfold service.Services in H. destruct (platform s) as [k|]; simpl in H.
    + destruct H as (r & t' & -> & -> & _). repeat constructor.
    + destruct H as [-> _]. constructor.
  - unfold service.History in H.
    destruct (decide (workload = "")) as [Hw|Hw]; cbn [bind call exec] in H.
    + destruct H as (r & t' & -> & -> & _). repeat constructor.
    + destruct H as ([h err] & t' & -> & H).
      assert (t' = []) as ->.
      { destruct (decide (err = Some ErrNoHistory)); [|destruct err];
          destruct H as [-> _]; reflexivity. }
      repeat constructor.
Qed.

(** A look-up of the history of a workload that has none. *)
Lemma reading_operations_change_nothing_witness :
  exec (service.History fluxd "prod" "svc-with-no-history")
       [Ev (EventsForService db0 "prod" "svc-with-no-history")
           (history.mkHistory "" history.StateUnknown [], Some ErrNoHistory)]
       (Returned
          ({[ "svc-with-no-history" :=
                history.mkHistory "svc-with-no-history"
                  history.StateUnknown [] ]},
           None))
  /\ store_after db0
       [Ev (EventsForService db0 "prod" "svc-with-no-history")
           (history.mkHistory "" history.StateUnknown [], Some ErrNoHistory)]
       empty_store
     = empty_store.
Proof.
  destruct (reading_operations_change_nothing ParseImage_spec Repository_spec
              fluxd "prod" "svc-with-no-history") as (_ & _ & HH).
  assert (He : exec (service.History fluxd "prod" "svc-with-no-history")
                 [Ev (EventsForService db0 "prod" "svc-with-no-history")
                     (history.mkHistory "" history.StateUnknown [],
                      Some ErrNoHistory)]
                 (Returned
                    ({[ "svc-with-no-history" :=
                          history.mkHistory "svc-with-no-history"
                            history.StateUnknown [] ]},
                     None))).
  { exists (history.mkHistory "" history.StateUnknown [], Some ErrNoHistory), [].
    split; [reflexivity|]. split; reflexivity. }
  split; [exact He|]. exact (proj2 (HH _ _ He) db0 empty_store).
Defined.

(** ** Who is asked *)

Section discipline.

Variable ParseImage : string -> registry.Image.
Variable Image_Repository : registry.Image -> string.
Variable s : service.

Local Ltac asked :=
  unfold asks_only;
  repeat first
    [ apply List.Forall_nil
    | apply List.Forall_cons; [simpl; auto|] ].

Lemma ServiceImages_asks (namespace workload : string) (t : trace)
    (o : outcome (list ContainerImages * option error)) :
  exec (service.ServiceImages ParseImage Image_Repository s namespace workload)
       t o ->
  asks_only (TheRegistry (registry s) :: platform_of s) t.
Proof.
  unfold service.ServiceImages, on_cluster, platform_of.
  destruct (platform s) as [k|]; cbn [bind call exec].
  - intros ([containers [e|]] & t' & -> & H).
    + destruct H as [-> _]. asked.
    + apply range_containers_lookups in H. asked.
      eapply Forall_impl; [exact H|]. intros ev [-> _]. simpl. auto.
  - intros [-> _]. asked.
Qed.

Lemma History_asks (namespace workload : string) (t : trace)
    (o : outcome (gmap string history.History * option error)) :
  exec (service.History s namespace workload) t o ->
  asks_only [TheHistory (history s)] t.
Proof.
  unfold service.History.
  destruct (decide (workload = "")) as [Hw|Hw]; cbn [bind call exec].
  - intros (r & t' & -> & -> & _). asked.
  - intros ([h err] & t' & -> & H).
    assert (t' = []) as ->.
    { destruct (decide (err = Some ErrNoHistory)); [|destruct err];
        destruct H as [-> _]; reflexivity. }
    asked.
Qed.

Lemma Release_asks (namespace workload : string) (newDef : list byte)
    (updatePeriod : Z) (t : trace) (o : outcome (option error)) :
  exec (service.Release s namespace workload newDef updatePeriod) t o ->
  asks_only (TheHistory (history s) :: platform_of s) t.
Proof.
  unfold platform_of. destruct (platform s) as [k|] eqn:Hk.
  - intros H. apply (Release_exec s k _ _ _ _ Hk) in H.
    destruct H as (err & -> & _). asked.
  - unfold service.Release. rewrite Hk. simpl. intros [-> _]. asked.
Qed.

End discipline.

(** X2. Each operation asks its own collaborators and nobody else, in
    every execution: Images the registry; ServiceImages the registry and
    the platform; Services the platform; History the history; Release
    the history and the platform, never the registry or the automator;
    Automate and Deautomate the automator alone, so that switching
    automation writes nothing to the history. *)
Theorem operations_ask_their_own_collaborators :
  forall (ParseImage : string -> registry.Image)
         (Image_Repository : registry.Image -> string)
         (s : service) (repository namespace workload : string)
         (newDef : list byte) (updatePeriod : Z),
    (forall t o,
        exec (service.Images s repository) t o ->
        asks_only [TheRegistry (registry s)] t)
    /\ (forall t o,
          exec (service.ServiceImages ParseImage Image_Repository s
                  namespace workload) t o ->
          asks_only (TheRegistry (registry s) :: platform_of s) t)
    /\ (forall t o,
          exec (service.Services s namespace) t o ->
          asks_only (platform_of s) t)
    /\ (forall t o,
          exec (service.History s namespace workload) t o ->
          asks_only [TheHistory (history s)] t)
    /\ (forall t o,
          exec (service.Release s namespace workload newDef updatePeriod) t o ->
          asks_only (TheHistory (history s) :: platform_of s) t)
    /\ (forall t o,
          exec (service.Automate s namespace workload) t o ->
          asks_only [TheAutomator (automator s)] t)
    /\ (forall t o,
          exec (service.Deautomate s namespace workload) t o ->
          asks_only [TheAutomator (automator s)] t).
Proof.
  intros PI IR s repository namespace workload newDef updatePeriod.
  split; [|split; [|split; [|split; [|split; [|split]]]]]; intros t o H.
  - apply Images_exec in H. destruct H as (repo & err & -> & _).
    repeat constructor.
  - eapply ServiceImages_asks. exact H.
  - unfold service.Services, platform_of in *.
    destruct (platform s) as [k|]; simpl in H.
    + destruct H as (r & t' & -> & -> & _). repeat constructor.
    + destruct H as [-> _]. constructor.
  - eapply History_asks. exact H.
  - eapply Release_asks. exact H.
  - simpl in H. destruct H as ([] & t' & -> & -> & _). repeat constructor.
  - simpl in H. destruct H as ([] & t' & -> & -> & _). repeat constructor.
Qed.

(** The failing release of the running example asks the history and the
    platform. *)
Lemma operations_ask_their_own_collaborators_witness :
  exec (service.Release fluxd "prod" "web" [] thirty_seconds)
       (release_trace fluxd k8s0 "prod" "web" [] thirty_seconds
          (Some timeout_error))
       (Returned (Some timeout_error))
  /\ asks_only [TheHistory db0; ThePlatform k8s0]
       (release_trace fluxd k8s0 "prod" "web" [] thirty_seconds
          (Some timeout_error)).
Proof.
  destruct (operations_ask_their_own_collaborators ParseImage_spec
              Repository_spec fluxd "app" "prod" "web" [] thirty_seconds)
    as (_ & _ & _ & _ & HR & _).
  assert (He : exec (service.Release fluxd "prod" "web" [] thirty_seconds)
                 (release_trace fluxd k8s0 "prod" "web" [] thirty_seconds
                    (Some timeout_error))
                 (Returned (Some timeout_error))).
  { apply (Release_exec fluxd k8s0 _ _ _ _ eq_refl).
    exists (Some timeout_error). split; reflexivity. }
  split; [exact He|]. exact (HR _ _ He).
Defined.

(** ** History, by mode *)

(** X3. The two modes of History treat the errors of the store
    differently.  With the empty workload History hands back what
    AllEvents answered, mapping and error together, and ErrNoHistory is
    an error like any other there.  With a named workload History never
    returns ErrNoHistory, and whenever it returns an error the mapping is
    nil, whatever record came with the error. *)
Theorem History_errors_by_mode :
  forall (s : service) (namespace : string),
    (forall t o,
        exec (service.History s namespace "") t o <->
        exists answer,
          t = [Ev (AllEvents (history s) namespace) answer]
          /\ o = Returned answer)
    /\ (forall m,
          exec (service.History s namespace "")
               [Ev (AllEvents (history s) namespace) (m, Some ErrNoHistory)]
               (Returned (m, Some ErrNoHistory)))
    /\ (forall workload t m e,
          workload <> "" ->
          exec (service.History s namespace workload) t (Returned (m, Some e)) ->
          e <> ErrNoHistory
          /\ m = ∅
          /\ exists h,
               t = [Ev (EventsForService (history s) namespace workload)
                       (h, Some e)]).
Proof.
  intros s namespace.
  assert (Hall : forall t o,
             exec (service.History s namespace "") t o <->
             exists answer,
               t = [Ev (AllEvents (history s) namespace) answer]
               /\ o = Returned answer).
  { intros t o. unfold service.History.
    rewrite decide_True by reflexivity. apply exec_call_iff. }
  split; [exact Hall|]. split.
  - intros m. apply Hall. eauto.
  - intros workload t m e Hw H.
    apply (History_exec s namespace workload Hw) in H.
    destruct H as (h & err & -> & Ho).
    destruct (decide (err = Some ErrNoHistory)) as [->|Hne];
      [discriminate Ho|].
    destruct err as [e'|]; [|discriminate Ho].
    injection Ho as -> ->.
    split; [congruence|]. split; [reflexivity|]. exists h. reflexivity.
Qed.

(** A store that is down, asked for "web". *)
Lemma History_errors_by_mode_witness :
  "web" <> ""
  /\ exec (service.History fluxd "prod" "web")
          [Ev (EventsForService db0 "prod" "web")
              (history_of_web, Some timeout_error)]
          (Returned (∅, Some timeout_error))
  /\ timeout_error <> ErrNoHistory.
Proof.
  assert (Hne : "web" <> "") by discriminate.
  split; [exact Hne|].
  assert (He : exec (service.History fluxd "prod" "web")
                 [Ev (EventsForService db0 "prod" "web")
                     (history_of_web, Some timeout_error)]
                 (Returned (∅, Some timeout_error))).
  { exists (history_of_web, Some timeout_error), [].
    split; [reflexivity|]. split; reflexivity. }
  split; [exact He|].
  destruct (History_errors_by_mode fluxd "prod") as (_ & _ & Hone).
  exact (proj1 (Hone "web" _ _ _ Hne He)).
Defined.

(** ** Services, Automate and Deautomate *)

(** X4. With a platform, Services makes the one call on it and hands
    back what it answered as it is, list and error together: a list that
    comes with an error is not dropped, unlike in Images and
    ServiceImages. *)
Theorem Services_passes_through :
  forall (s : service) (k : kubernetes.Cluster) (namespace : string)
         (t : trace) (o : outcome (list platform.Service * option error)),
    platform s = Some k ->
    (exec (service.Services s namespace) t o <->
     exists answer,
       t = [Ev (ClusterServices k namespace) answer] /\ o = Returned answer).
Proof.
  intros s k namespace t o Hk. unfold service.Services. rewrite Hk.
  apply exec_call_iff.
Qed.

Lemma Services_passes_through_witness :
  platform fluxd = Some k8s0
  /\ exec (service.Services fluxd "prod")
          [Ev (ClusterServices k8s0 "prod")
              ([platform.mkService "web" "app:v1"], Some timeout_error)]
          (Returned ([platform.mkService "web" "app:v1"], Some timeout_error)).
Proof.
  split; [reflexivity|].
  apply (Services_passes_through fluxd k8s0 "prod" _ _ eq_refl).
  eexists. split; reflexivity.
Defined.

(** X5. Automate and Deautomate cannot fail and need no platform: on
    any service, with or without one, each makes exactly one call, Enable
    or Disable on the service's automator with the namespace and the
    workload as given, and returns nil; no event is logged and no state
    register is written. *)
Theorem Automate_and_Deautomate_only_forward :
  forall (s : service) (namespace workload : string),
    (forall t o,
        exec (service.Automate s namespace workload) t o <->
        t = [Ev (Enable (automator s) namespace workload) tt]
        /\ o = Returned None)
    /\ (forall t o,
          exec (service.Deautomate s namespace workload) t o <->
          t = [Ev (Disable (automator s) namespace workload) tt]
          /\ o = Returned None)
    /\ (forall t o db st,
          exec (service.Automate s namespace workload) t o
          \/ exec (service.Deautomate s namespace workload) t o ->
          store_after db t st = st /\ omap logged t = []).
Proof.
  intros s namespace workload.
  assert (HA : forall t o,
             exec (service.Automate s namespace workload) t o <->
             t = [Ev (Enable (automator s) namespace workload) tt]
             /\ o = Returned None).
  { intros t o. simpl. split.
    - intros ([] & t' & -> & -> & ->). auto.
    - intros [-> ->]. exists tt, []. auto. }
  assert (HD : forall t o,
             exec (service.Deautomate s namespace workload) t o <->
             t = [Ev (Disable (automator s) namespace workload) tt]
             /\ o = Returned None).
  { intros t o. simpl. split.
    - intros ([] & t' & -> & -> & ->). auto.
    - intros [-> ->]. exists tt, []. auto. }
  split; [exact HA|]. split; [exact HD|].
  intros t o db st [H|H]; [apply HA in H | apply HD in H];
    destruct H as [-> _]; split; reflexivity.
Qed.

(** Automation switched on for "web" on the service without platform. *)
Lemma Automate_and_Deautomate_only_forward_witness :
  exec (service.Automate fluxd_no_platform "prod" "web")
       [Ev (Enable auto0 "prod" "web") tt] (Returned None)
  /\ store_after db0 [Ev (Enable auto0 "prod" "web") tt] empty_store
     = empty_store.
Proof.
  destruct (Automate_and_Deautomate_only_forward fluxd_no_platform
              "prod" "web") as (HA & _ & Hst).
  assert (He : exec (service.Automate fluxd_no_platform "prod" "web")
                 [Ev (Enable auto0 "prod" "web") tt] (Returned None)).
  { apply HA. split; reflexivity. }
  split; [exact He|].
  exact (proj1 (Hst _ _ db0 empty_store (or_introl He))).
Defined.

(** ** ServiceImages, call by call *)

Section service_images_calls.

Variable ParseImage : string -> registry.Image.
Variable Image_Repository : registry.Image -> string.
Variable s : service.

(** The loop asks for the containers one by one from the first on, and
    stops at a failure: the answers it got are answers for a prefix of the
    containers, and none but the last is a failure. *)
Lemma range_containers_prefix (containers : list platform.Container)
    (acc : list ContainerImages) (t : trace)
    (o : outcome (list ContainerImages * option error)) :
  exec (service.range_containers ParseImage Image_Repository s containers acc)
       t o ->
  exists answers : list (registry.Repository * option error),
    t = zip_with (lookup_of ParseImage Image_Repository s) containers answers
    /\ length answers <= length containers
    /\ (forall (i : nat) a,
          answers !! i = Some a -> S i < length answers -> a.2 = None).
Proof.
  revert acc t. induction containers as [|c cs IH]; intros acc t; simpl.
  - intros [-> _]. exists []. split; [reflexivity|]. split; [reflexivity|].
    intros i a Hi. rewrite lookup_nil in Hi. discriminate Hi.
  - intros ([repo [e|]] & t' & -> & H); simpl in H.
    + destruct H as [-> _]. exists [(repo, Some e)].
      split; [destruct cs; reflexivity|]. split; [simpl; lia|].
      intros i a _ Hlt. simpl in Hlt. lia.
    + apply IH in H. destruct H as (answers & -> & Hlen & Hlast).
      exists ((repo, None) :: answers).
      split; [reflexivity|]. split; [simpl; lia|].
      intros [|i] a Hi Hlt; simpl in *.
      * injection Hi as <-. reflexivity.
      * apply (Hlast i a Hi). lia.
Qed.

Lemma lookup_is_no_containers_error (ev : event) (c : registry.Client) :
  collaborator_of ev = TheRegistry c ->
  containers_error ev = None /\ is_lookup ev = true.
Proof.
  destruct ev as [R e r]; destruct e; simpl; intros H;
    try discriminate H; auto.
Qed.

End service_images_calls.

(** X6. With a platform, ServiceImages asks the platform for the
    containers once and then the registry for a prefix of them, in their
    order, the i-th look-up being for the repository of the i-th
    container: never more than one look-up per container, none after a
    look-up that failed, and none at all when the platform answered with
    an error. *)
Theorem ServiceImages_looks_up_a_prefix :
  forall (ParseImage : string -> registry.Image)
         (Image_Repository : registry.Image -> string)
         (s : service) (k : kubernetes.Cluster) (namespace workload : string)
         (t : trace) (o : outcome (list ContainerImages * option error)),
    platform s = Some k ->
    exec (service.ServiceImages ParseImage Image_Repository s
            namespace workload) t o ->
    exists (containers : list platform.Container) (err : option error)
           (answers : list (registry.Repository * option error)),
      t = Ev (ContainersFor k namespace workload) (containers, err)
            :: zip_with (lookup_of ParseImage Image_Repository s)
                 containers answers
      /\ length answers <= length containers
      /\ (forall (i : nat) a,
            answers !! i = Some a -> S i < length answers -> a.2 = None)
      /\ (err <> None -> answers = []).
Proof.
  intros PI IR s k namespace workload t o Hk.
  unfold service.ServiceImages, on_cluster. rewrite Hk.
  cbn [bind call exec].
  intros ([containers [e|]] & t' & -> & H).
  - destruct H as [-> _]. exists containers, (Some e), [].
    split; [destruct containers; reflexivity|]. split; [simpl; lia|].
    split; [|reflexivity].
    intros i a Hi. rewrite lookup_nil in Hi. discriminate Hi.
  - apply range_containers_prefix in H.
    destruct H as (answers & -> & Hlen & Hlast).
    exists containers, None, answers.
    split; [reflexivity|]. split; [exact Hlen|]. split; [exact Hlast|].
    intros Hne. contradiction Hne. reflexivity.
Qed.

(** Two containers, the look-up of the first fails: the second is not
    looked up. *)
Lemma ServiceImages_looks_up_a_prefix_witness :
  platform fluxd = Some k8s0
  /\ exec (service.ServiceImages ParseImage_spec Repository_spec fluxd
            "prod" "web")
          [ Ev (ContainersFor k8s0 "prod" "web") ([sidecar; web], None);
            Ev (GetRepository reg0 "proxy")
               (registry.mkRepository [], Some not_found) ]
          (Returned ([], Some not_found))
  /\ exists (containers : list platform.Container) (err : option error)
            (answers : list (registry.Repository * option error)),
       [ Ev (ContainersFor k8s0 "prod" "web") ([sidecar; web], None);
         Ev (GetRepository reg0 "proxy")
            (registry.mkRepository [], Some not_found) ]
       = Ev (ContainersFor k8s0 "prod" "web") (containers, err)
           :: zip_with (lookup_of ParseImage_spec Repository_spec fluxd)
                containers answers
       /\ length answers <= length containers.
Proof.
  split; [reflexivity|].
  assert (He : exec (service.ServiceImages ParseImage_spec Repository_spec
                       fluxd "prod" "web")
                 [ Ev (ContainersFor k8s0 "prod" "web") ([sidecar; web], None);
                   Ev (GetRepository reg0 "proxy")
                      (registry.mkRepository [], Some not_found) ]
                 (Returned ([], Some not_found))).
  { eexists ([sidecar; web], None), _. split; [reflexivity|].
    exists (registry.mkRepository [], Some not_found), [].
    split; [reflexivity|]. split; reflexivity. }
  split; [exact He|].
  destruct (ServiceImages_looks_up_a_prefix ParseImage_spec Repository_spec
              fluxd k8s0 "prod" "web" _ _ eq_refl He)
    as (cs & err & answers & Ht & Hlen & _).
  exists cs, err, answers. split; [exact Ht | exact Hlen].
Defined.

(** X7. When the platform answers the request for the containers with
    an error, ServiceImages returns that error with a nil list at once:
    that one call is the whole execution, the registry is not asked, and a
    list of containers that came with the error is not used. *)
Theorem ServiceImages_platform_error :
  forall (ParseImage : string -> registry.Image)
         (Image_Repository : registry.Image -> string)
         (s : service) (k : kubernetes.Cluster) (namespace workload : string),
    platform s = Some k ->
    (forall containers e,
        exec (service.ServiceImages ParseImage Image_Repository s
                namespace workload)
             [Ev (ContainersFor k namespace workload) (containers, Some e)]
             (Returned ([], Some e)))
    /\ (forall t o e,
          exec (service.ServiceImages ParseImage Image_Repository s
                  namespace workload) t o ->
          Exists (fun ev => containers_error ev = Some e) t ->
          length t = 1
          /\ Forall (fun ev => is_lookup ev = false) t
          /\ o = Returned ([], Some e)).
Proof.
  intros PI IR s k namespace workload Hk.
  unfold service.ServiceImages, on_cluster. rewrite Hk.
  cbn [bind call exec]. split.
  - intros containers e. exists (containers, Some e), [].
    split; [reflexivity|]. split; reflexivity.
  - intros t o e ([containers [e'|]] & t' & -> & H) HE.
    + destruct H as [-> ->].
      inversion HE as [? ? Hhd | ? ? Htl]; subst; [|inversion Htl].
      simpl in Hhd. injection Hhd as ->.
      split; [reflexivity|]. split; [repeat constructor | reflexivity].
    + exfalso. inversion HE as [? ? Hhd | ? ? Htl]; subst.
      * discriminate Hhd.
      * apply range_containers_lookups in H.
        apply Exists_exists in Htl. destruct Htl as (ev & Hin & Hev).
        rewrite Forall_forall in H. destruct (H ev Hin) as [Hc _].
        apply lookup_is_no_containers_error in Hc. destruct Hc as [Hc _].
        congruence.
Qed.

Lemma ServiceImages_platform_error_witness :
  platform fluxd = Some k8s0
  /\ exec (service.ServiceImages ParseImage_spec Repository_spec fluxd
            "prod" "web")
          [Ev (ContainersFor k8s0 "prod" "web") ([web], Some timeout_error)]
          (Returned ([], Some timeout_error))
  /\ length [Ev (ContainersFor k8s0 "prod" "web") ([web], Some timeout_error)]
     = 1.
Proof.
  split; [reflexivity|].
  destruct (ServiceImages_platform_error ParseImage_spec Repository_spec
              fluxd k8s0 "prod" "web" eq_refl) as [Hsome Hall].
  pose proof (Hsome [web] timeout_error) as He.
  split; [exact He|].
  refine (proj1 (Hall _ _ timeout_error He _)).
  left. reflexivity.
Defined.

(** ** Release, call by call *)

Lemma store_after_app (db : history.DB) (t1 t2 : trace) (st : Store) :
  store_after db (t1 ++ t2)%list st
  = store_after db t2 (store_after db t1 st).
Proof. unfold store_after. apply fold_left_app. Qed.

(** X8. While the platform works on a release the state register of the
    workload reads InProgress: it is written before the platform is
    asked, it still stands when the platform has answered, and up to then
    nothing has been logged and the log of the workload is as it was. *)
Theorem Release_is_in_progress_during_the_update :
  forall (s : service) (k : kubernetes.Cluster) (namespace workload : string)
         (newDef : list byte) (updatePeriod : Z)
         (t : trace) (o : outcome (option error)) (st : Store),
    platform s = Some k ->
    exec (service.Release s namespace workload newDef updatePeriod) t o ->
    state_of (store_after (history s) (take 1 t) st) namespace workload
      = Some history.StateInProgress
    /\ release_answers (take 1 t) = []
    /\ (exists err, release_answers (take 2 t) = [err])
    /\ state_of (store_after (history s) (take 2 t) st) namespace workload
         = Some history.StateInProgress
    /\ events_of (store_after (history s) (take 2 t) st) namespace workload
         = events_of st namespace workload
    /\ omap logged (take 2 t) = [].
Proof.
  intros s k namespace workload newDef updatePeriod t o st Hk H.
  apply (Release_exec s k _ _ _ _ Hk) in H. destruct H as (err & -> & _).
  unfold release_trace, store_after, state_of, events_of; simpl.
  rewrite !decide_True by reflexivity. simpl.
  rewrite lookup_insert_eq.
  repeat split; try reflexivity. exists err. reflexivity.
Qed.

Lemma Release_is_in_progress_during_the_update_witness :
  platform fluxd = Some k8s0
  /\ exec (service.Release fluxd "prod" "web" [] thirty_seconds)
          (release_trace fluxd k8s0 "prod" "web" [] thirty_seconds None)
          (Returned None)
  /\ state_of
       (store_after db0
          (take 2 (release_trace fluxd k8s0 "prod" "web" [] thirty_seconds
                     None))
          empty_store) "prod" "web"
     = Some history.StateInProgress.
Proof.
  split; [reflexivity|].
  assert (He : exec (service.Release fluxd "prod" "web" [] thirty_seconds)
                 (release_trace fluxd k8s0 "prod" "web" [] thirty_seconds None)
                 (Returned None)).
  { apply (Release_exec fluxd k8s0 _ _ _ _ eq_refl). exists None.
    split; reflexivity. }
  split; [exact He|].
  destruct (Release_is_in_progress_during_the_update fluxd k8s0 "prod" "web"
              [] thirty_seconds _ _ empty_store eq_refl He)
    as (_ & _ & _ & Hstate & _).
  exact Hstate.
Defined.

(** X9. Releases of one workload, one after the other, each with its own
    definition and budget: the log of the workload grows by one event per
    release, in the order of the releases, each event telling how its
    release ended, and after the last release the register reads Rest. *)
Theorem Releases_extend_the_log_in_order :
  forall (s : service) (k : kubernetes.Cluster) (namespace workload : string)
         (ts : list trace) (errs : list (option error)),
    platform s = Some k ->
    Forall2
      (fun t err =>
         exists newDef updatePeriod,
           exec (service.Release s namespace workload newDef updatePeriod) t
                (Returned err))
      ts errs ->
    forall st : Store,
      events_of (store_after (history s) (concat ts) st) namespace workload
        = (events_of st namespace workload ++ map release_event errs)%list
      /\ (errs <> [] ->
          state_of (store_after (history s) (concat ts) st) namespace workload
            = Some history.StateRest).
Proof.
  intros s k namespace workload ts errs Hk H.
  induction H as [|t err ts errs (newDef & updatePeriod & Ht) Hrest IH];
    intros st; simpl.
  - rewrite app_nil_r. split; [reflexivity|]. intros Hne. contradiction.
  - apply (Release_exec s k _ _ _ _ Hk) in Ht.
    destruct Ht as (err' & -> & Herr). injection Herr as <-.
    rewrite store_after_app.
    destruct (release_trace_store s k namespace workload newDef updatePeriod
                err st) as (Hev & Hstate & _).
    destruct (IH (store_after (history s)
                    (release_trace s k namespace workload newDef updatePeriod
                       err) st)) as [IHev IHstate].
    split.
    + rewrite IHev, Hev, <- app_assoc. reflexivity.
    + intros _. destruct errs as [|err2 errs].
      * inversion Hrest. subst. simpl. exact Hstate.
      * apply IHstate. discriminate.
Qed.

(** A release that times out, then one that succeeds. *)
Lemma Releases_extend_the_log_in_order_witness :
  platform fluxd = Some k8s0
  /\ events_of
       (store_after db0
          (release_trace fluxd k8s0 "prod" "web" [] thirty_seconds
             (Some timeout_error)
           ++ release_trace fluxd k8s0 "prod" "web" [] thirty_seconds None)%list
          empty_store) "prod" "web"
     = ["Release failed: timeout"; "Release succeeded"].
Proof.
  split; [reflexivity|].
  assert (He : forall err,
             exists newDef updatePeriod,
               exec (service.Release fluxd "prod" "web" newDef updatePeriod)
                    (release_trace fluxd k8s0 "prod" "web" [] thirty_seconds
                       err)
                    (Returned err)).
  { intros err. exists [], thirty_seconds.
    apply (Release_exec fluxd k8s0 _ _ _ _ eq_refl). exists err.
    split; reflexivity. }
  assert (HF : Forall2
                 (fun t err =>
                    exists newDef updatePeriod,
                      exec (service.Release fluxd "prod" "web" newDef
                              updatePeriod) t (Returned err))
                 [release_trace fluxd k8s0 "prod" "web" [] thirty_seconds
                    (Some timeout_error);
                  release_trace fluxd k8s0 "prod" "web" [] thirty_seconds None]
                 [Some timeout_error; None]).
  { repeat apply List.Forall2_cons; [apply He | apply He | apply List.Forall2_nil]. }
  exact (proj1 (Releases_extend_the_log_in_order fluxd k8s0 "prod" "web"
                  _ _ eq_refl HF empty_store)).
Defined.

(** X10. The event of a release whose rolling update returns.  When
    the platform's rolling update comes back with an answer, the one text
    that the release logs is "Release succeeded" exactly when that answer
    is nil, whatever the text of the error otherwise; the answer is also
    what Release returns; and after an error the text is
    "Release failed: " followed by the text of the error.  (A rolling
    update that panics gives no answer: see X12.) *)
Theorem Release_event_tells_the_outcome :
  forall (s : service) (k : kubernetes.Cluster) (namespace workload : string)
         (newDef : list byte) (updatePeriod : Z)
         (t : trace) (o : outcome (option error)),
    platform s = Some k ->
    exec (service.Release s namespace workload newDef updatePeriod) t o ->
    exists (err : option error) (msg : string),
      release_answers t = [err]
      /\ o = Returned err
      /\ omap logged t = [msg]
      /\ (msg = "Release succeeded" <-> err = None)
      /\ (forall e, err = Some e -> msg = "Release failed: " +:+ Error e).
Proof.
  intros s k namespace workload newDef updatePeriod t o Hk H.
  apply (Release_exec s k _ _ _ _ Hk) in H. destruct H as (err & -> & ->).
  exists err, (release_event err).
  split; [reflexivity|]. split; [reflexivity|]. split; [reflexivity|]. split.
  - destruct err as [e|]; simpl; split; intros H;
      first [discriminate H | reflexivity].
  - intros e ->. reflexivity.
Qed.

(** A platform whose error reads "Release succeeded". *)
Lemma Release_event_tells_the_outcome_witness :
  platform fluxd = Some k8s0
  /\ exec (service.Release fluxd "prod" "web" [] thirty_seconds)
          (release_trace fluxd k8s0 "prod" "web" [] thirty_seconds
             (Some (errorString "Release succeeded")))
          (Returned (Some (errorString "Release succeeded")))
  /\ omap logged
       (release_trace fluxd k8s0 "prod" "web" [] thirty_seconds
          (Some (errorString "Release succeeded")))
     = ["Release failed: Release succeeded"].
Proof.
  split; [reflexivity|].
  assert (He : exec (service.Release fluxd "prod" "web" [] thirty_seconds)
                 (release_trace fluxd k8s0 "prod" "web" [] thirty_seconds
                    (Some (errorString "Release succeeded")))
                 (Returned (Some (errorString "Release succeeded")))).
  { apply (Release_exec fluxd k8s0 _ _ _ _ eq_refl). eexists.
    split; reflexivity. }
  split; [exact He|].
  destruct (Release_event_tells_the_outcome fluxd k8s0 "prod" "web" []
              thirty_seconds _ _ eq_refl He)
    as (err & msg & Hans & _ & Hlog & _ & Hfail).
  injection Hans as <-.
  rewrite Hlog. f_equal. exact (Hfail _ eq_refl).
Defined.

(** ** Release and History together *)

(** X11. Against the store of the running example, History shows what
    Release did: for a workload the store knows nothing of, History
    returns the record with state Unknown and no events; after a release
    of that or any other named workload, History returns the one record
    of the workload, with state Rest and, last in its events, the event
    of the release. *)
Theorem History_after_Release :
  forall (s : service) (k : kubernetes.Cluster) (namespace workload : string)
         (newDef : list byte) (updatePeriod : Z) (w : World),
    platform s = Some k ->
    history s = db0 ->
    workload <> "" ->
    (state_of (store w) namespace workload = None ->
     log (store w) !! (namespace, workload) = None ->
     (run double (service.History s namespace workload) w).1.1
     = Returned
         ({[ workload :=
               history.mkHistory workload history.StateUnknown [] ]},
          None))
    /\ (run double (service.History s namespace workload)
          (run double
             (service.Release s namespace workload newDef updatePeriod) w).2
       ).1.1
       = Returned
           ({[ workload :=
                 history.mkHistory workload history.StateRest
                   (events_of (store w) namespace workload
                      ++ [release_event (rolling_update w)]) ]},
            None).
Proof.
  intros s k namespace workload newDef updatePeriod w Hk Hdb Hw.
  unfold service.History. rewrite decide_False by exact Hw. split.
  - intros Hstate Hlog. cbn [bind call run double].
    unfold store_EventsForService. rewrite Hstate, Hlog.
    cbn. rewrite decide_True by reflexivity. reflexivity.
  - unfold service.Release. rewrite Hk, Hdb.
    destruct (rolling_update w) as [e|] eqn:Hru;
      cbn [bind call run double with_defer store_step with_store store
           rolling_update fst snd];
      rewrite ?Hru; cbn [bind call run double with_defer store_step with_store
                         store rolling_update fst snd];
      rewrite !decide_True by reflexivity;
      unfold store_EventsForService, state_of, store_LogEvent,
        store_ChangeState, events_of; cbn [register log];
      rewrite !lookup_insert_eq; reflexivity.
Qed.

(** The running example: "web" has no history, a release times out, and
    History shows it. *)
Lemma History_after_Release_witness :
  platform fluxd = Some k8s0
  /\ history fluxd = db0
  /\ "web" <> ""
  /\ (run double (service.History fluxd "prod" "web")
        (world0 (Some timeout_error))).1.1
     = Returned
         ({[ "web" := history.mkHistory "web" history.StateUnknown [] ]}, None)
  /\ (run double (service.History fluxd "prod" "web")
        (run double (service.Release fluxd "prod" "web" [] thirty_seconds)
           (world0 (Some timeout_error))).2).1.1
     = Returned
         ({[ "web" := history.mkHistory "web" history.StateRest
                        ["Release failed: timeout"] ]},
          None).
Proof.
  assert (Hne : "web" <> "") by discriminate.
  split; [reflexivity|]. split; [reflexivity|]. split; [exact Hne|].
  destruct (History_after_Release fluxd k8s0 "prod" "web" [] thirty_seconds
              (world0 (Some timeout_error)) eq_refl eq_refl Hne)
    as [Hfresh Hafter].
  split; [apply Hfresh; reflexivity | exact Hafter].
Defined.

(** ** A rolling update that panics *)

(** With a platform, Release is [Release_around] the call of the
    platform's rolling update. *)
Lemma Release_is_Release_around (s : service) (k : kubernetes.Cluster)
    (namespace workload : string) (newDef : list byte) (updatePeriod : Z) :
  platform s = Some k ->
  service.Release s namespace workload newDef updatePeriod
  = Release_around s namespace workload
      (call (ClusterRelease k namespace workload newDef updatePeriod)).
Proof. intros Hk. unfold service.Release. rewrite Hk. reflexivity. Qed.

(** X12. The deferred function of Release runs also when the rolling
    update panics, and then reads the named result nil: the history gets
    InProgress, then the event "Release succeeded", then Rest, and the
    panic goes on, so that Release returns nothing.  An event
    "Release succeeded" in the log therefore does not tell that Release
    returned nil. *)
Theorem Release_around_a_panicking_update :
  forall (s : service) (k : kubernetes.Cluster) (namespace workload : string)
         (newDef : list byte) (updatePeriod : Z),
    platform s = Some k ->
    service.Release s namespace workload newDef updatePeriod
    = Release_around s namespace workload
        (call (ClusterRelease k namespace workload newDef updatePeriod))
    /\ (forall v t o,
          exec (Release_around s namespace workload (Panic v)) t o <->
          t = panicked_release_trace s namespace workload /\ o = Panicked v)
    /\ omap logged (panicked_release_trace s namespace workload)
       = ["Release succeeded"]
    /\ (forall st : Store,
          let st' :=
            store_after (history s)
              (panicked_release_trace s namespace workload) st in
          events_of st' namespace workload
            = (events_of st namespace workload ++ ["Release succeeded"])%list
          /\ state_of st' namespace workload = Some history.StateRest).
Proof.
  intros s k namespace workload newDef updatePeriod Hk.
  split; [apply Release_is_Release_around; exact Hk|].
  split; [|split; [reflexivity|]].
  - intros v t o. unfold Release_around, panicked_release_trace. simpl. split.
    + intros ([] & t1 & -> & [] & t2 & -> & [] & t3 & -> & -> & ->). auto.
    + intros [-> ->].
      exists tt; eexists; split; [reflexivity|].
      exists tt; eexists; split; [reflexivity|].
      exists tt; eexists; split; [reflexivity|]. auto.
  - intros st. unfold store_after, panicked_release_trace; simpl.
    rewrite !decide_True by reflexivity.
    unfold events_of, state_of, store_LogEvent, store_ChangeState; simpl.
    rewrite !lookup_insert_eq. split; reflexivity.
Qed.

(** The release of the running example around a rolling update that
    panics. *)
Lemma Release_around_a_panicking_update_witness :
  platform fluxd = Some k8s0
  /\ exec (Release_around fluxd "prod" "web" (Panic "boom"))
          (panicked_release_trace fluxd "prod" "web") (Panicked "boom")
  /\ events_of
       (store_after db0 (panicked_release_trace fluxd "prod" "web")
          empty_store) "prod" "web"
     = ["Release succeeded"].
Proof.
  split; [reflexivity|].
  destruct (Release_around_a_panicking_update fluxd k8s0 "prod" "web" []
              thirty_seconds eq_refl) as (_ & Hexec & _ & Hstore).
  split; [apply Hexec; split; reflexivity|].
  exact (proj1 (Hstore empty_store)).
Defined.

(** ** ServiceImages through the nil platform *)

Section through_nil.

Variable ParseImage : string -> registry.Image.
Variable Image_Repository : registry.Image -> string.
Variable s : service.

(** ServiceImages is [ServiceImages_or] with the panic of the
    dereference, and with a platform it is [ServiceImages_or] with
    anything. *)
Lemma ServiceImages_is_ServiceImages_or (namespace workload : string) :
  service.ServiceImages ParseImage Image_Repository s namespace workload
  = ServiceImages_or ParseImage Image_Repository (Panic nil_dereference)
      s namespace workload.
Proof. reflexivity. Qed.

Lemma ServiceImages_or_with_platform (k : kubernetes.Cluster)
    (through_nil : prog (list platform.Container * option error))
    (namespace workload : string) :
  platform s = Some k ->
  ServiceImages_or ParseImage Image_Repository through_nil s
    namespace workload
  = service.ServiceImages ParseImage Image_Repository s namespace workload.
Proof.
  intros Hk. unfold ServiceImages_or, service.ServiceImages, on_cluster_or,
    on_cluster. rewrite Hk. reflexivity.
Qed.

(** An error with which the loop ends is the error of one of its
    look-ups. *)
Lemma range_containers_error_origin (containers : list platform.Container)
    (acc : list ContainerImages) (t : trace) (result : list ContainerImages)
    (e : error) :
  exec (service.range_containers ParseImage Image_Repository s containers acc)
       t (Returned (result, Some e)) ->
  Exists (fun ev => lookup_error ev = Some e) t.
Proof.
  revert acc t. induction containers as [|c cs IH]; intros acc t; simpl.
  - intros [_ H]. discriminate H.
  - intros ([repo [e'|]] & t' & -> & H); simpl in H.
    + destruct H as [-> H]. injection H as _ ->. left. reflexivity.
    + right. eapply IH. exact H.
Qed.

End through_nil.

(** X13. ServiceImages has no nil check of the platform.  On a service
    constructed without a platform, whatever ContainersFor does when it
    is called through the nil pointer is the first thing that
    ServiceImages does: if the call panics, ServiceImages panics and has
    asked nobody; if it returns an error, ServiceImages returns that
    error with a nil list; if it returns containers, the look-ups follow.
    ServiceImages makes up no error of its own: an error that it returns
    was returned by that call or by a look-up, while Services on the same
    service returns ErrNoPlatformConfigured without any call. *)
Theorem ServiceImages_has_no_platform_check :
  forall (ParseImage : string -> registry.Image)
         (Image_Repository : registry.Image -> string)
         (reg : registry.Client) (auto : automator.Automator) (db : history.DB)
         (namespace workload : string),
    let s := NewService reg None auto db in
    service.ServiceImages ParseImage Image_Repository s namespace workload
    = ServiceImages_or ParseImage Image_Repository (Panic nil_dereference)
        s namespace workload
    /\ (forall v t o,
          exec (ServiceImages_or ParseImage Image_Repository (Panic v)
                  s namespace workload) t o <->
          t = [] /\ o = Panicked v)
    /\ (forall containers e t o,
          exec (ServiceImages_or ParseImage Image_Repository
                  (Ret (containers, Some e)) s namespace workload) t o <->
          t = [] /\ o = Returned ([], Some e))
    /\ (forall containers t o,
          exec (ServiceImages_or ParseImage Image_Repository
                  (Ret (containers, None)) s namespace workload) t o <->
          exec (service.range_containers ParseImage Image_Repository s
                  containers []) t o)
    /\ (forall through_nil t result e,
          exec (ServiceImages_or ParseImage Image_Repository through_nil
                  s namespace workload) t (Returned (result, Some e)) ->
          (exists t1 containers,
              exec through_nil t1 (Returned (containers, Some e)))
          \/ Exists (fun ev => lookup_error ev = Some e) t)
    /\ exec (service.Services s namespace) []
            (Returned ([], Some ErrNoPlatformConfigured)).
Proof.
  intros PI IR reg auto db namespace workload s.
  split; [reflexivity|].
  split; [intros v t o; simpl; tauto|].
  split; [intros containers e t o; simpl; tauto|].
  split; [intros containers t o; simpl; tauto|].
  split; [|simpl; auto].
  intros through_nil t result e H.
  unfold ServiceImages_or, on_cluster_or in H. simpl in H.
  apply exec_bind_iff in H.
  destruct H as [([containers err] & t1 & t2 & H1 & H2 & ->) | (v & _ & Hv)];
    [|discriminate Hv].
  destruct err as [e'|].
  - destruct H2 as [_ H2]. injection H2 as _ ->.
    left. exists t1, containers. exact H1.
  - right. apply Exists_app. right.
    eapply range_containers_error_origin. exact H2.
Qed.

(** A cluster whose ContainersFor, called through nil, reports that it is
    not there. *)
Lemma ServiceImages_has_no_platform_check_witness :
  exec (ServiceImages_or ParseImage_spec Repository_spec
          (Ret ([], Some not_found)) fluxd_no_platform "prod" "web")
       [] (Returned ([], Some not_found))
  /\ exec (ServiceImages_or ParseImage_spec Repository_spec
            (Panic nil_dereference) fluxd_no_platform "prod" "web")
          [] (Panicked nil_dereference)
  /\ ((exists t1 containers,
          exec (Ret ([], Some not_found)
                : prog (list platform.Container * option error))
               t1 (Returned (containers, Some not_found)))
      \/ Exists (fun ev => lookup_error ev = Some not_found) []).
Proof.
  destruct (ServiceImages_has_no_platform_check ParseImage_spec
              Repository_spec reg0 auto0 db0 "prod" "web")
    as (_ & Hpanic & Herr & _ & Horigin & _).
  assert (He : exec (ServiceImages_or ParseImage_spec Repository_spec
                       (Ret ([], Some not_found)) fluxd_no_platform
                       "prod" "web")
                 [] (Returned ([], Some not_found))).
  { apply Herr. split; reflexivity. }
  split; [exact He|].
  split; [apply Hpanic; split; reflexivity|].
  exact (Horigin _ _ _ _ He).
Defined.
